(** * Co-occurrence latent vectors: a model of [features/category_vector.py]

    The development follows the Python module function by function.
    Exceptions are modelled in the [option] monad ([None] is a raised
    exception), Python integers are unbounded and therefore [Z], a numpy
    integer scalar wraps at the bounds of its dtype, and the numerical
    collaborators (vectorizers, factorizers) are section
    variables: the module only moves their results around. *)

From stdpp Require Import list strings pretty.
From Stdlib Require Import ZArith Lia.

Local Open Scope Z_scope.

(** ** Python and numpy primitives *)

(** [seq[i]] on a sequence of length [n]: a negative index counts from the
    end, anything outside [-n, n) raises [IndexError]. *)
Definition py_index (n : nat) (i : Z) : option nat :=
  if decide (0 <= i < Z.of_nat n) then Some (Z.to_nat i)
  else if decide (- Z.of_nat n <= i < 0) then Some (Z.to_nat (Z.of_nat n + i))
  else None.

Definition py_getitem {A} (l : list A) (i : Z) : option A :=
  k ← py_index (length l) i; l !! k.

(** [str(i)] on an integer. *)
Definition str (i : Z) : string := pretty i.

(** [' '.join(map(str, ls))] *)
Definition join_tokens (ls : list Z) : string :=
  String.concat " " (str <$> ls).

(** A [for] loop whose body may raise. *)
Fixpoint for_each {St B} (body : St → B → option St) (s : St) (l : list B) : option St :=
  match l with
  | [] => Some s
  | x :: l => s' ← body s x; for_each body s' l
  end.

(** [Series.max()]; on an empty series pandas answers NaN, and the
    [range(NaN + 1)] that follows raises. *)
Definition series_max (c : list Z) : option Z :=
  match c with
  | [] => None
  | x :: c => Some (foldl Z.max x c)
  end.

(** numpy's integer dtypes.  A scalar taken out of a column keeps the
    column's dtype, and arithmetic with a Python integer stays in it. *)
Inductive dtype : Type :=
  int8 | int16 | int32 | int64 | uint8 | uint16 | uint32 | uint64.

Definition dtype_min (dt : dtype) : Z :=
  match dt with
  | int8 => - 2 ^ 7 | int16 => - 2 ^ 15 | int32 => - 2 ^ 31 | int64 => - 2 ^ 63
  | uint8 | uint16 | uint32 | uint64 => 0
  end.

Definition dtype_max (dt : dtype) : Z :=
  match dt with
  | int8 => 2 ^ 7 - 1 | int16 => 2 ^ 15 - 1 | int32 => 2 ^ 31 - 1 | int64 => 2 ^ 63 - 1
  | uint8 => 2 ^ 8 - 1 | uint16 => 2 ^ 16 - 1 | uint32 => 2 ^ 32 - 1 | uint64 => 2 ^ 64 - 1
  end.

(** [x + 1] on a scalar [x] of dtype [dt]: at the dtype's maximum the sum
    overflows and wraps round to the minimum. *)
Definition scalar_succ (dt : dtype) (x : Z) : Z :=
  if decide (x = dtype_max dt) then dtype_min dt else x + 1.

(** The names bound at the top level of the module: its imports, its
    function and its classes. *)
Definition module_names : list string :=
  ["itertools"; "gc"; "np"; "pd"; "abstractmethod"; "partial"; "Pool";
   "TransformerMixin"; "LatentDirichletAllocation"; "TruncatedSVD"; "NMF";
   "CountVectorizer"; "TfidfVectorizer"; "TfidfTransformer"; "make_pipeline";
   "OneHotEncoder"; "BaseFeatureTransformer"; "create_word_list";
   "OneVsOneCoOccurrenceLatentVector"; "KomakiLDA5"; "KomakiPCA5"; "KomakiNMF5";
   "SinglePCACount"; "SinglePCATfIdf"; "UserItemLDA"].

(** Reading a name that is not a local of the function: a [NameError]
    unless the module binds it (a bound name stands for its value). *)
Definition load_name (x : string) : option string :=
  if decide (x ∈ module_names) then Some x else None.

(** ** The row-level dataset

    Both splits share the schema [{ip, app, os, device, channel}] of
    label-encoded integers. *)
Record Row := mkRow { ip : Z; app : Z; os : Z; device : Z; channel : Z }.

Abbreviation DataFrame := (list Row).

(** [df[col]]: a [KeyError] for a name outside the schema. *)
Definition field (col : string) : option (Row → Z) :=
  if decide (col = "ip") then Some ip
  else if decide (col = "app") then Some app
  else if decide (col = "os") then Some os
  else if decide (col = "device") then Some device
  else if decide (col = "channel") then Some channel
  else None.

Definition column (df : DataFrame) (col : string) : option (list Z) :=
  f ← field col; Some (f <$> df).

(** ** Document Builder: [create_word_list] *)

(** [col2_list[val1].append(val2)] *)
Definition append_at (col2_list : list (list Z)) (p : Z * Z) : option (list (list Z)) :=
  k ← py_index (length col2_list) p.1;
  Some (alter (λ l, l ++ [p.2]) k col2_list).



(** ** numpy rows and feature tables *)

(** [row[start:stop] = v] on a one-dimensional array: the slice is clipped
    to the row, and [v] must have the slice's length or be a single value
    that is broadcast; anything else is a [ValueError]. *)
Definition set_slice {A} (row : list A) (start stop : nat) (v : list A) : option (list A) :=
  let start := (start `min` length row)%nat in
  let stop := (stop `min` length row)%nat in
  let n := (stop - start)%nat in
  v' ← (if decide (length v = n) then Some v
        else match v with [x] => Some (replicate n x) | _ => None end);
  Some (take start row ++ v' ++ drop (start + n) row).

(** [enumerate(l)] *)
Definition enumerate {A} (l : list A) : list (nat * A) :=
  zip (seq 0 (length l)) l.

(** [zip(cs1, cs2, vs)] *)
Definition zip3 {A B C} (l1 : list A) (l2 : list B) (l3 : list C) : list (A * B * C) :=
  zip (zip l1 l2) l3.

(** The frame a pipeline returns: a float32 matrix and its column names. *)
Record FeatureFrame (F : Type) := mkFrame { data : list (list F); columns : list string }.
Arguments mkFrame {F} _ _.
Arguments data {F} _.
Arguments columns {F} _.

(** [pd.DataFrame(data=..., columns=...)] on a matrix of [ncols] columns:
    a [ValueError] when the number of names differs from the matrix width. *)
Definition DataFrame_of {F} (ncols : nat) (d : list (list F)) (cols : list string)
  : option (FeatureFrame F) :=
  if decide (length cols = ncols) then Some (mkFrame d cols) else None.

(** ** A worker pool: [Pool(n).map]

    Jobs wait in a queue, at most [workers] of them run at once, an oracle
    [sched] picks which running job finishes next, and every result is
    stored in the slot of its submission index.  A job that raised makes
    the whole [map] raise once all jobs are done. *)
Record pool_state (J R : Type) := mkPool {
  queue : list (nat * J);
  running : list (nat * J);
  slots : list (option (option R))
}.
Arguments mkPool {J R} _ _ _.
Arguments queue {J R} _.
Arguments running {J R} _.
Arguments slots {J R} _.

Definition dispatch {J R} (workers : nat) (st : pool_state J R) : pool_state J R :=
  let idle := (workers - length (running st))%nat in
  mkPool (drop idle (queue st)) (running st ++ take idle (queue st)) (slots st).

Definition complete {J R} (f : J → option R) (k : nat) (st : pool_state J R) : pool_state J R :=
  match running st !! k with
  | Some (i, job) => mkPool (queue st) (delete k (running st)) (<[i := Some (f job)]> (slots st))
  | None => st
  end.

Fixpoint pool_run {J R} (workers : nat) (f : J → option R) (fuel : nat) (sched : list nat)
    (st : pool_state J R) : pool_state J R :=
  match fuel with
  | O => st
  | S fuel =>
      let st := dispatch workers st in
      match running st with
      | [] => st
      | _ :: _ =>
          let k := (hd 0%nat sched `mod` length (running st))%nat in
          pool_run workers f fuel (tl sched) (complete f k st)
      end
  end.

Definition pool_map {J R} (workers : nat) (sched : list nat) (f : J → option R) (jobs : list J)
  : option (list R) :=
  let st := pool_run workers f (length jobs) sched
              (mkPool (enumerate jobs) [] (replicate (length jobs) None)) in
  results ← mapM id (slots st);
  mapM id results.

(** The jobs of a pool state that have not finished yet. *)
Definition pending {J R} (st : pool_state J R) : list (nat * J) :=
  queue st ++ running st.

(** What stays true while the pool works through [jobs]: a job is pending
    at most once and under its own submission index, and the slot of every
    job that is no longer pending holds that job's result. *)
Definition pool_inv {J R} (f : J → option R) (jobs : list J) (st : pool_state J R) : Prop :=
  length (slots st) = length jobs
  ∧ NoDup (pending st).*1
  ∧ (∀ i job, (i, job) ∈ pending st → jobs !! i = Some job)
  ∧ (∀ i job, jobs !! i = Some job → i ∉ (pending st).*1 →
       slots st !! i = Some (Some (f job))).

(** ** Composite keys *)

(** [(ip << 44) | (device << 20) | (os << 10) | channel] *)
Definition pack (r : Row) : Z :=
  Z.lor (Z.lor (Z.lor (Z.shiftl (ip r) 44) (Z.shiftl (device r) 20)) (Z.shiftl (os r) 10))
        (channel r).

(** A Python [dict] keyed by integers; iteration follows insertion order. *)
Fixpoint dict_get {V} (d : list (Z * V)) (k : Z) : option V :=
  match d with
  | [] => None
  | (k', v) :: d => if decide (k' = k) then Some v else dict_get d k
  end.

Fixpoint dict_set {V} (d : list (Z * V)) (k : Z) (v : V) : list (Z * V) :=
  match d with
  | [] => [(k, v)]
  | (k', v') :: d => if decide (k' = k) then (k', v) :: d else (k', v') :: dict_set d k v
  end.

Definition threshold : nat := 3.
Definition n_components : nat := 30.

(** Body of the first loop of [UserItemLDA]: give the row's key its dense
    id, grow [values] up to that id, append the row's [app]. *)
Definition accumulate (st : list (Z * nat) * list (list Z)) (r : Row)
  : list (Z * nat) * list (list Z) :=
  let '(mask_to_id, values) := st in
  let mask := pack r in
  let '(mask_id, mask_to_id) :=
    match dict_get mask_to_id mask with
    | Some mask_id => (mask_id, mask_to_id)
    | None => let mask_id := length mask_to_id in (mask_id, dict_set mask_to_id mask mask_id)
    end in
  let values := values ++ replicate (S mask_id - length values) [] in
  (mask_to_id, alter (λ l, l ++ [app r]) mask_id values).

(** Body of the second loop: keep the keys with at least [threshold]
    tokens and number them in the order they are met. *)
Definition renumber (values : list (list Z)) (st : list (list Z) * list (Z * nat))
    (item : Z * nat) : option (list (list Z) * list (Z * nat)) :=
  let '(new_values, new_mask_to_id) := st in
  let '(mask, mask_id) := item in
  toks ← values !! mask_id;
  if decide (threshold ≤ length toks)%nat then
    let new_mask_id := length new_values in
    Some (new_values ++ [toks], dict_set new_mask_to_id mask new_mask_id)
  else Some st.

(** [min_df] of the vectorizer, chosen from the combined row count. *)
Definition min_df_for (rows : nat) : Z :=
  if decide (Z.of_nat rows < 1000 * 1000) then 1 else 2.

(** *** Reading the key builder's result *)

(** The distinct keys of a key sequence, in the order they are first met. *)
Definition first_seen (ks : list Z) : list Z :=
  foldl (λ acc k, if decide (k ∈ acc) then acc else acc ++ [k]) [] ks.

(** The token list a key accumulates: the [app] of every row packed to it. *)
Definition key_tokens (df : DataFrame) (k : Z) : list Z :=
  app <$> filter (λ r, pack r = k) df.

(** The keys that reach the threshold, still in first-seen order. *)
Definition surviving_keys (df : DataFrame) : list Z :=
  filter (λ k, (threshold ≤ length (key_tokens df k))%nat) (first_seen (pack <$> df)).

(** Position of a key in a key list. *)
Fixpoint index_of (k : Z) (ks : list Z) : option nat :=
  match ks with
  | [] => None
  | k' :: ks => if decide (k' = k) then Some 0%nat else S <$> index_of k ks
  end.

(** A key list numbered from 0 in its own order. *)
Definition numbered (ks : list Z) : list (Z * nat) :=
  zip ks (seq 0 (length ks)).

(** The key tuple that [pack] is meant to identify. *)
Definition key_tuple (r : Row) : Z * Z * Z * Z :=
  (ip r, device r, os r, channel r).

(** Every packed column fits the bits the shifts leave for it. *)
Definition in_width (r : Row) : Prop :=
  0 ≤ channel r < 2 ^ 10 ∧ 0 ≤ os r < 2 ^ 10 ∧ 0 ≤ device r < 2 ^ 24.

(** Some packed column exceeds its allotted bit width. *)
Definition overflows (r : Row) : Prop :=
  2 ^ 10 ≤ channel r ∨ 2 ^ 10 ≤ os r ∨ 2 ^ 24 ≤ device r.

(** Two rows with distinct key tuples and one packed key: [os = 1] and
    [channel = 1024] set the same bit. *)
Definition collide_os : Row := mkRow 0 7 1 0 0.
Definition collide_channel : Row := mkRow 0 8 0 0 1024.


(** The [columns] of [get_column_pairs]. *)
Definition categorical_columns : list string := ["ip"; "app"; "os"; "device"; "channel"].

(** ** Toy collaborators, used to run the pipelines on small inputs *)

Definition toy_vectorizer (docs : list string) : option (list string) := Some docs.

Definition toy_count_vectorizer (min_df : Z) (docs : list string) : option (list string) :=
  Some docs.

(** Row [i] of the latent matrix is filled with [i + 1]. *)
Definition toy_factorizer (width : nat) (dtm : list string) : option (list (list Z)) :=
  Some (imap (λ i _, replicate width (Z.of_nat (S i))) dtm).

(** Every row of the result records how many rows were fitted. *)
Definition toy_svd (n : nat) (X : list (list Z)) : option (list (list Z)) :=
  Some ((λ _, replicate n (Z.of_nat (length X))) <$> X).


(** A vectorizer that only answers for one value of [min_df]. *)
Definition only_min_df (k min_df : Z) (docs : list string) : option (list string) :=
  if decide (min_df = k) then Some docs else None.

Definition toy_train : DataFrame :=
  [mkRow 0 1 0 0 0; mkRow 1 2 1 0 0; mkRow 0 3 0 0 1].
Definition toy_test : DataFrame := [mkRow 1 1 1 0 1].

(** Key [0] has three rows, key [pack (5,5,5,5)] one, key [pack (1,1,1,1)]
    two in the train split and a third in the test split. *)
Definition toy_key_train : DataFrame :=
  [mkRow 0 1 0 0 0; mkRow 0 2 0 0 0; mkRow 5 5 5 5 5; mkRow 0 3 0 0 0;
   mkRow 1 1 1 1 1; mkRow 1 1 1 1 1].
Definition toy_key_test : DataFrame := [mkRow 1 1 1 1 1].

Definition toy_store (train test : DataFrame) (path : string) : option DataFrame :=
  if decide (path = "train") then Some train
  else if decide (path = "test") then Some test
  else None.

Section Model.

Set Default Proof Using "Type".

(** The integer dtype of each column of the dataset. *)
Variable column_dtype : string → dtype.

(** [df[col1].max() + 1] is a sum of numpy scalars in the dtype of
    [col1]; the loop then works on Python integers. *)
Definition create_word_list (df : DataFrame) (col1 col2 : string) : option (list string) :=
  c1 ← column df col1;
  m ← series_max c1;
  let col1_size := scalar_succ (column_dtype col1) m in
  let col2_list : list (list Z) := replicate (Z.to_nat col1_size) [] in
  c2 ← column df col2;
  col2_list ← for_each append_at col2_list (zip c1 c2);
  Some (map join_tokens col2_list).

(** Entries of a fitted latent matrix, their float32 images, and the
    float32 zero of [np.zeros]. *)
Context {F64 F32 : Type}.
Variable astype_float32 : F64 → F32.
Variable zero32 : F32.

(** Sparse document-term matrices are opaque. *)
Context {DTM : Type}.

(** The transformer object: its [name], and for the pairwise pipeline the
    abstract [width], [vectorizer_factory().fit_transform] and
    [transformer_factory().fit_transform]. *)
Variable name : string.
Variable width : nat.
Variable vectorizer_fit_transform : list string → option DTM.
Variable transformer_fit_transform : DTM → option (list (list F64)).

(** [pd.read_feather] *)
Variable read_feather : string → option DataFrame.

(** [CountVectorizer(min_df=k).fit_transform],
    [LatentDirichletAllocation(n_components=n, ...).fit_transform] and the
    two one-hot pipelines of the single-pipeline variants. *)
Variable count_vectorizer : Z → list string → option DTM.
Variable lda_fit_transform : nat → DTM → option (list (list F64)).
Variable onehot_svd : nat → list (list Z) → option (list (list F64)).
Variable onehot_tfidf_svd : nat → list (list Z) → option (list (list F64)).

Definition astype (m : list (list F64)) : list (list F32) :=
  map (map astype_float32) m.

(** *** OneVsOneCoOccurrenceLatentVector *)

Definition create_document_term_matrix (dataframe : DataFrame) (col1 col2 : string)
  : option DTM :=
  word_list ← create_word_list dataframe col1 col2;
  vectorizer_fit_transform word_list.

Definition compute_latent_vectors (dataframe : DataFrame) (col_pair : string * string)
  : option (string * string * list (list F64)) :=
  let '(col1, col2) := col_pair in
  document_term_matrix ← create_document_term_matrix dataframe col1 col2;
  latent ← transformer_fit_transform document_term_matrix;
  Some (col1, col2, latent).

(** [itertools.product(columns, repeat=2)] without the diagonal. *)
Definition get_column_pairs : list (string * string) :=
  let columns := categorical_columns in
  filter (λ p, p.1 ≠ p.2) (list_prod columns columns).

(** [self.name + '-' + col1 + '-' + col2 + '-' + str(j)] *)
Definition column_name (col1 col2 : string) (j : nat) : string :=
  name +:+ "-" +:+ col1 +:+ "-" +:+ col2 +:+ "-" +:+ pretty j.

(** [features[j, offset:offset + width] = latent_vector[val1]] *)
Definition assign_slice (offset : nat) (latent_vector : list (list F32))
    (features : list (list F32)) (jv : nat * Z) : option (list (list F32)) :=
  let '(j, val1) := jv in
  v ← py_getitem latent_vector val1;
  row ← features !! j;
  row' ← set_slice row offset (offset + width) v;
  Some (<[j := row']> features).

(** Body of the loop over [enumerate(zip(cs1, cs2, vs))]. *)
Definition get_feature_step (df_data : DataFrame)
    (st : list (list F32) * list string)
    (item : nat * (string * string * list (list F32)))
  : option (list (list F32) * list string) :=
  let '(features, columns) := st in
  let '(i, (col1, col2, latent_vector)) := item in
  let offset := (i * width)%nat in
  let columns := columns ++ (column_name col1 col2 <$> seq 0 width) in
  c ← column df_data col1;
  features ← for_each (assign_slice offset latent_vector) features (enumerate c);
  Some (features, columns).

Definition get_feature (path : string) (cs1 cs2 : list string)
    (vs : list (list (list F32))) : option (FeatureFrame F32) :=
  df_data ← read_feather path;
  let ncols := (length cs1 * width)%nat in
  let features := replicate (length df_data) (replicate ncols zero32) in
  st ← for_each (get_feature_step df_data) (features, []) (enumerate (zip3 cs1 cs2 vs));
  DataFrame_of ncols st.1 st.2.

(** Body of the loop that collects the pool's results. *)
Definition collect (st : list string * list string * list (list (list F32)))
    (res : string * string * list (list F64))
  : list string * list string * list (list (list F32)) :=
  let '(col1s, col2s, latent_vectors) := st in
  let '(col1, col2, latent_vector) := res in
  (col1s ++ [col1], col2s ++ [col2], latent_vectors ++ [astype latent_vector]).

(** [sched] is the order in which the pool's workers happen to finish.
    [train_path] and [test_path] are neither parameters nor locals of the
    method, so they are read as names of the module. *)
Definition transform (sched : list nat) (dataframe : DataFrame)
  : option (FeatureFrame F32 * FeatureFrame F32) :=
  let column_pairs := get_column_pairs in
  results ← pool_map 4 sched (compute_latent_vectors dataframe) column_pairs;
  let '(col1s, col2s, latent_vectors) := foldl collect ([], [], []) results in
  train_path ← load_name "train_path";
  train ← get_feature train_path col1s col2s latent_vectors;
  test_path ← load_name "test_path";
  test ← get_feature test_path col1s col2s latent_vectors;
  Some (train, test).

(** *** SinglePCACount, SinglePCATfIdf *)

(** [df_data[['ip', 'app', 'os', 'device', 'channel']].values] *)
Definition key_values (df : DataFrame) : list (list Z) :=
  (λ r, [ip r; app r; os r; device r; channel r]) <$> df.

(** [self.name + '_{}'.format(i)] for [i] in [range(n)] *)
Definition feature_columns (n : nat) : list string :=
  (λ i, name +:+ "_" +:+ pretty i) <$> seq 0 n.

Definition SinglePCACount (df_train df_test : DataFrame)
  : option (FeatureFrame F32 * FeatureFrame F32) :=
  let train_length := length df_train in
  let df_data := df_train ++ df_test in
  features ← onehot_svd n_components (key_values df_data);
  let features := astype features in
  train ← DataFrame_of n_components (take train_length features) (feature_columns n_components);
  test ← DataFrame_of n_components (drop train_length features) (feature_columns n_components);
  Some (train, test).

Definition SinglePCATfIdf (df_train df_test : DataFrame)
  : option (FeatureFrame F32 * FeatureFrame F32) :=
  let train_length := length df_train in
  let df_data := df_train ++ df_test in
  features ← onehot_tfidf_svd 30 (key_values df_data);
  let features := astype features in
  train ← DataFrame_of n_components (take train_length features) (feature_columns n_components);
  test ← DataFrame_of n_components (drop train_length features) (feature_columns n_components);
  Some (train, test).

(** *** UserItemLDA *)

(** Body of the last loop: [features[i, :] = components[mask_id]] when
    the row's key is in the filtered map. *)
Definition fill (components : list (list F64)) (mask_to_id : list (Z * nat))
    (features : list (list F32)) (ir : nat * Row) : option (list (list F32)) :=
  let '(i, r) := ir in
  let mask := pack r in
  match dict_get mask_to_id mask with
  | Some mask_id =>
      v ← components !! mask_id;
      row ← features !! i;
      row' ← set_slice row 0 (length row) (astype_float32 <$> v);
      Some (<[i := row']> features)
  | None => Some features
  end.

(** The two builder loops: first-seen ids, then the frequency filter. *)
Definition build_keys (df_data : DataFrame) : option (list (list Z) * list (Z * nat)) :=
  let '(mask_to_id, values) := foldl accumulate ([], []) df_data in
  for_each (renumber values) ([], []) mask_to_id.

Definition UserItemLDA (df_train df_test : DataFrame)
  : option (FeatureFrame F32 * FeatureFrame F32) :=
  let train_length := length df_train in
  let df_data := df_train ++ df_test in
  '(values, mask_to_id) ← build_keys df_data;
  let values := join_tokens <$> values in
  values ← count_vectorizer (min_df_for (length df_data)) values;
  components ← lda_fit_transform n_components values;
  let features := replicate (length df_data) (replicate n_components zero32) in
  features ← for_each (fill components mask_to_id) features (enumerate df_data);
  train ← DataFrame_of n_components (take train_length features) (feature_columns n_components);
  test ← DataFrame_of n_components (drop train_length features) (feature_columns n_components);
  Some (train, test).

(** *** Reading the tables back *)

(** A collected triple [(col1, col2, latent matrix)]. *)
Local Abbreviation triple := (string * string * list (list F32))%type.

(** The latent row a data row selects in a triple (empty when the name
    or the index is invalid). *)
Definition latent_row (t : triple) (r : Row) : list F32 :=
  default [] (f ← field t.1.1; py_getitem t.2 (f r)).

(** The names the loop appends for one triple. *)
Definition triple_columns (t : triple) : list string :=
  column_name t.1.1 t.1.2 <$> seq 0 width.

(** A triple is usable on a dataset when its first column exists and
    every value of that column selects a latent row of [width] entries. *)
Definition triple_ok (df : DataFrame) (t : triple) : Prop :=
  ∃ f, field t.1.1 = Some f
       ∧ Forall (λ r, ∃ v, py_getitem t.2 (f r) = Some v ∧ length v = width) df.

(** The feature row assembled from the triples [ts], and the same row
    while the loop still has [n - length ts] zero slices to fill. *)
Definition slices (ts : list triple) (r : Row) : list F32 :=
  concat ((λ t, latent_row t r) <$> ts).

Definition padded (n : nat) (ts : list triple) (r : Row) : list F32 :=
  slices ts r ++ replicate ((n - length ts) * width) zero32.

(** The precondition of the assembler, as the claims state it: every
    latent matrix has [width] columns, and every value of a triple's first
    column is a dense id in range for that triple's matrix. *)
Definition dense_ids (df : DataFrame) (cs1 : list string) (vs : list (list (list F32))) : Prop :=
  ∀ i col1 lv, cs1 !! i = Some col1 → vs !! i = Some lv →
    Forall (λ row, length row = width) lv
    ∧ ∃ c, column df col1 = Some c ∧ Forall (λ v, 0 ≤ v < Z.of_nat (length lv)) c.

(** The same precondition as a check that can be run. *)
Definition check_dense_ids (df : DataFrame) (cs1 : list string)
    (vs : list (list (list F32))) : bool :=
  forallb (λ p : string * list (list F32),
      forallb (λ row, bool_decide (length row = width)) p.2
      && match column df p.1 with
         | Some c => forallb (λ v, bool_decide (0 ≤ v < Z.of_nat (length p.2))) c
         | None => false
         end)
    (zip cs1 vs).

(** The feature vector the composite-key pipeline gives a row, read off
    the surviving keys [kept] and the fitted [components]. *)
Definition feature_row (components : list (list F64)) (kept : list Z) (r : Row) : list F32 :=
  match index_of (pack r) kept with
  | Some mask_id => astype_float32 <$> default [] (components !! mask_id)
  | None => replicate n_components zero32
  end.

(** The wider precondition the code really needs: every value selects a
    latent row, counting from the end when it is negative. *)
Definition wrapped_ids (df : DataFrame) (cs1 : list string) (vs : list (list (list F32))) : Prop :=
  ∀ i col1 lv, cs1 !! i = Some col1 → vs !! i = Some lv →
    Forall (λ row, length row = width) lv
    ∧ ∃ c, column df col1 = Some c
           ∧ Forall (λ v, - Z.of_nat (length lv) ≤ v < Z.of_nat (length lv)) c.

Definition check_wrapped_ids (df : DataFrame) (cs1 : list string)
    (vs : list (list (list F32))) : bool :=
  forallb (λ p : string * list (list F32),
      forallb (λ row, bool_decide (length row = width)) p.2
      && match column df p.1 with
         | Some c => forallb (λ v, bool_decide (- Z.of_nat (length p.2) ≤ v
                                                < Z.of_nat (length p.2))) c
         | None => false
         end)
    (zip cs1 vs).

(** ** The Document Builder *)

Lemma dtype_min_nonpos dt : dtype_min dt ≤ 0.
Proof. destruct dt; simpl; lia. Qed.

Lemma scalar_succ_below dt m : m < dtype_max dt → scalar_succ dt m = m + 1.
Proof. intros Hm. unfold scalar_succ. by rewrite decide_False by lia. Qed.

Lemma scalar_succ_top dt : Z.to_nat (scalar_succ dt (dtype_max dt)) = 0%nat.
Proof.
  unfold scalar_succ. rewrite decide_True by done.
  pose proof (dtype_min_nonpos dt). lia.
Qed.

Lemma py_index_nonneg n i :
  0 ≤ i < Z.of_nat n → py_index n i = Some (Z.to_nat i).
Proof. intros Hi. unfold py_index. by rewrite decide_True. Qed.

Lemma foldl_max_ge x c : x ≤ foldl Z.max x c ∧ Forall (λ v, v ≤ foldl Z.max x c) c.
Proof.
  revert x. induction c as [|y c IH]; intros x; simpl; [split; [lia | constructor]|].
  destruct (IH (Z.max x y)) as [H1 H2]. split; [lia|]. constructor; [lia | done].
Qed.

Lemma foldl_max_elem x c : foldl Z.max x c = x ∨ foldl Z.max x c ∈ c.
Proof.
  revert x. induction c as [|y c IH]; intros x; simpl; [by left|].
  destruct (IH (Z.max x y)) as [H | H].
  - rewrite H. destruct (Z.max_spec x y) as [[_ ->] | [_ ->]]; [right; left | by left].
  - right. by right.
Qed.

Lemma series_max_spec c m :
  m ∈ c → Forall (λ v, v ≤ m) c → series_max c = Some m.
Proof.
  intros Hm Hle. destruct c as [|x c]; [by apply elem_of_nil in Hm|].
  simpl. f_equal. apply Z.le_antisymm.
  - destruct (foldl_max_elem x c) as [-> | H].
    + by inversion Hle.
    + inversion Hle; subst. rewrite Forall_forall in H3. by apply H3.
  - destruct (foldl_max_ge x c) as [H1 H2].
    apply elem_of_cons in Hm as [-> | Hm]; [done|].
    rewrite Forall_forall in H2. by apply H2.
Qed.







(** ** The Pair Job Runner's enumeration *)

(** C6. [get_column_pairs] lists exactly 20 ordered pairs, no pair
    twice, and a pair is listed exactly when its two members are distinct
    columns of [{ip, app, os, device, channel}]. *)
Theorem get_column_pairs_enumeration :
  length get_column_pairs = 20%nat
  ∧ NoDup get_column_pairs
  ∧ ∀ col1 col2,
      (col1, col2) ∈ get_column_pairs
      ↔ col1 ∈ categorical_columns ∧ col2 ∈ categorical_columns ∧ col1 ≠ col2.
Proof.
  split; [reflexivity|]. split.
  - by apply (bool_decide_unpack _).
  - intros col1 col2. unfold get_column_pairs.
    rewrite list_elem_of_filter, <- list_cprod_list_prod, list_elem_of_cprod.
    simpl. split; [intros (Hne & H1 & H2) | intros (H1 & H2 & Hne)]; done.
Qed.

(** ** Loops over the rows of a matrix *)

Lemma for_each_rows {A X} (body : list A → nat * X → option (list A))
    (g : A → X → A) (Q : A → X → Prop) :
  (∀ fs j x a, fs !! j = Some a → Q a x → body fs (j, x) = Some (<[j := g a x]> fs)) →
  ∀ xs done rest, Forall2 Q rest xs →
    for_each body (done ++ rest) (zip (seq (length done) (length xs)) xs)
    = Some (done ++ zip_with g rest xs).
Proof.
  intros Hbody. induction xs as [|x xs IH]; intros done rest HQ.
  - inversion HQ; subst. done.
  - inversion HQ as [|a ? rest' ? Ha HQ']; subst. simpl.
    rewrite (Hbody _ _ _ a); [|by rewrite list_lookup_middle|done]. simpl.
    rewrite insert_app_r_alt, Nat.sub_diag by lia. simpl.
    specialize (IH (done ++ [g a x]) rest' HQ').
    rewrite length_app in IH. simpl in IH.
    rewrite Nat.add_1_r, <- app_assoc in IH. simpl in IH.
    rewrite IH. by rewrite <- app_assoc.
Qed.

Lemma for_each_enumerate_rows {A X} (body : list A → nat * X → option (list A))
    (g : A → X → A) (Q : A → X → Prop) rows xs :
  (∀ fs j x a, fs !! j = Some a → Q a x → body fs (j, x) = Some (<[j := g a x]> fs)) →
  Forall2 Q rows xs →
  for_each body rows (enumerate xs) = Some (zip_with g rows xs).
Proof. intros Hbody HQ. exact (for_each_rows body g Q Hbody xs [] rows HQ). Qed.

Lemma set_slice_at {A} (row v : list A) off :
  (off + length v ≤ length row)%nat →
  set_slice row off (off + length v) v
  = Some (take off row ++ v ++ drop (off + length v) row).
Proof.
  intros Hlen. unfold set_slice.
  rewrite !Nat.min_l by lia.
  replace (off + length v - off)%nat with (length v) by lia.
  by rewrite decide_True.
Qed.

Lemma concat_block {A} (w : nat) (ls : list (list A)) : ∀ i l,
  Forall (λ l, length l = w) ls → ls !! i = Some l →
  take w (drop (i * w) (concat ls)) = l.
Proof.
  induction ls as [|l0 ls IH]; intros i l Hw Hi; [done|].
  apply Forall_cons in Hw as [Hl0 Hw']. destruct i as [|i]; simpl in *.
  - injection Hi as ->. rewrite drop_0. by rewrite take_app_length'.
  - rewrite drop_app_ge by lia.
    replace (w + i * w - length l0)%nat with (i * w)%nat by lia.
    by apply IH.
Qed.

Lemma length_concat_blocks {A} (w : nat) (ls : list (list A)) :
  Forall (λ l, length l = w) ls → length (concat ls) = (length ls * w)%nat.
Proof.
  induction 1 as [|l ls Hl _ IH]; [done|]. simpl. rewrite length_app. lia.
Qed.

Lemma set_slice_full {A} (row v : list A) :
  length v = length row → set_slice row 0 (length row) v = Some v.
Proof.
  intros Hlen. rewrite <- Hlen.
  pose proof (set_slice_at row v 0) as Hset. simpl in Hset.
  rewrite Hset by lia. by rewrite drop_ge, app_nil_r by lia.
Qed.

(** ** The Broadcast/Assembler: [get_feature] *)

Lemma latent_row_length df t r :
  triple_ok df t → r ∈ df → length (latent_row t r) = width.
Proof.
  intros (f & Hf & Hall) Hr. rewrite Forall_forall in Hall.
  destruct (Hall r Hr) as (v & Hv & Hlen).
  unfold latent_row. rewrite Hf. simpl. by rewrite Hv.
Qed.

Lemma slices_length df ts r :
  Forall (triple_ok df) ts → r ∈ df → length (slices ts r) = (length ts * width)%nat.
Proof.
  intros Hts Hr. unfold slices.
  rewrite (length_concat_blocks width), length_fmap; [done|].
  apply Forall_fmap. eapply Forall_impl; [exact Hts|].
  intros t Ht. simpl. by eapply latent_row_length.
Qed.

Lemma assign_slice_pass df t (pre : Row → list F32) k rest_len :
  triple_ok df t →
  (∀ r, r ∈ df → length (pre r) = (k * width)%nat) →
  ∃ c, column df t.1.1 = Some c ∧
    for_each (assign_slice (k * width) t.2)
      ((λ r, pre r ++ replicate (width + rest_len) zero32) <$> df) (enumerate c)
    = Some ((λ r, pre r ++ latent_row t r ++ replicate rest_len zero32) <$> df).
Proof.
  intros Hok Hpre. pose proof Hok as (f & Hf & Hall).
  exists (f <$> df). split; [unfold column; by rewrite Hf|].
  set (off := (k * width)%nat).
  set (g := λ (row : list F32) (val1 : Z),
         take off row ++ default [] (py_getitem t.2 val1) ++ drop (off + width) row).
  set (Q := λ (row : list F32) (val1 : Z),
         (∃ v, py_getitem t.2 val1 = Some v ∧ length v = width)
         ∧ (off + width ≤ length row)%nat).
  rewrite (for_each_enumerate_rows _ g Q).
  - f_equal. rewrite zip_with_fmap_l, zip_with_fmap_r, zip_with_diag.
    apply list_fmap_ext. intros i r Hi. apply list_elem_of_lookup_2 in Hi.
    unfold g. rewrite take_app_length' by (by rewrite Hpre).
    rewrite drop_app_ge by (rewrite Hpre by done; lia).
    rewrite Hpre by done. replace (off + width - k * width)%nat with width by (unfold off; lia).
    rewrite drop_replicate_add. f_equal. f_equal.
    unfold latent_row. by rewrite Hf.
  - intros fs j val1 row Hrow [(v & Hv & Hlen) Hfit]. unfold assign_slice.
    rewrite Hv. simpl. rewrite Hrow. simpl. rewrite <- Hlen at 1.
    rewrite set_slice_at by lia. simpl. unfold g. rewrite Hv. simpl.
    by rewrite Hlen.
  - apply Forall2_fmap, Forall_Forall2_diag.
    rewrite Forall_forall in Hall |- *. intros r Hr. split; [by apply Hall|].
    rewrite length_app, length_replicate, Hpre by done. unfold off. lia.
Qed.

Lemma get_feature_loop df n ts : ∀ done cols,
  Forall (triple_ok df) done → Forall (triple_ok df) ts →
  (length done + length ts ≤ n)%nat →
  for_each (get_feature_step df) (padded n done <$> df, cols)
    (zip (seq (length done) (length ts)) ts)
  = Some (padded n (done ++ ts) <$> df, cols ++ concat (triple_columns <$> ts)).
Proof.
  induction ts as [|t ts IH]; intros done cols Hdone Hts Hn.
  - simpl. by rewrite !app_nil_r.
  - inversion Hts as [|? ? Ht Hts']; subst. simpl in Hn.
    cbn [length seq zip zip_with for_each].
    destruct (assign_slice_pass df t (slices done) (length done)
                ((n - length done - 1) * width) Ht) as (c & Hc & Hpass).
    { intros r Hr. by eapply slices_length. }
    assert (Hstep : get_feature_step df (padded n done <$> df, cols) (length done, t)
              = Some (padded n (done ++ [t]) <$> df, cols ++ triple_columns t)).
    { unfold get_feature_step. destruct t as [[col1 col2] lv]. simpl in *.
      rewrite Hc. simpl.
      replace (padded n done <$> df)
        with ((λ r, slices done r ++ replicate (width + (n - length done - 1) * width) zero32) <$> df).
      2:{ apply list_fmap_ext. intros i r _. unfold padded. do 2 f_equal.
          replace (n - length done)%nat with (S (n - length done - 1)) by lia. simpl. lia. }
      rewrite Hpass. simpl. do 2 f_equal.
      apply list_fmap_ext. intros i r _. unfold padded, slices.
      rewrite fmap_app, concat_app. simpl. rewrite app_nil_r, <- app_assoc.
      do 3 f_equal. rewrite length_app. simpl. lia. }
    rewrite Hstep. simpl.
    specialize (IH (done ++ [t]) (cols ++ triple_columns t)).
    rewrite length_app in IH. simpl in IH. rewrite Nat.add_1_r in IH.
    rewrite IH; [|apply Forall_app; split; [done | by constructor]|done|lia].
    by rewrite <- !app_assoc.
Qed.

Lemma get_feature_closed path df cs1 cs2 vs :
  read_feather path = Some df →
  length cs2 = length cs1 → length vs = length cs1 →
  Forall (triple_ok df) (zip3 cs1 cs2 vs) →
  get_feature path cs1 cs2 vs
  = Some (mkFrame (slices (zip3 cs1 cs2 vs) <$> df)
                  (concat (triple_columns <$> zip3 cs1 cs2 vs))).
Proof.
  intros Hread H2 H3 Hok. unfold get_feature. rewrite Hread. simpl.
  set (ts := zip3 cs1 cs2 vs) in *.
  assert (Hlen : length ts = length cs1).
  { unfold ts, zip3. rewrite !length_zip_with. lia. }
  pose proof (get_feature_loop df (length cs1) ts [] [] (Forall_nil_2 _) Hok) as Hloop.
  replace (replicate (length df) (replicate (length cs1 * width) zero32))
    with (padded (length cs1) [] <$> df).
  2:{ unfold padded. simpl. rewrite Nat.sub_0_r. clear.
      induction df as [|r df IH]; [done|]. by rewrite fmap_cons, IH. }
  unfold enumerate. cbn [length app Nat.add] in Hloop. rewrite Hloop by lia. simpl.
  unfold DataFrame_of. rewrite decide_True.
  - do 2 f_equal. apply list_fmap_ext. intros i r _. unfold padded.
    rewrite Hlen, Nat.sub_diag. simpl. by rewrite app_nil_r.
  - rewrite (length_concat_blocks width), length_fmap; [lia|].
    apply Forall_fmap, Forall_true. intros t. simpl. unfold triple_columns.
    by rewrite length_fmap, length_seq.
Qed.

Lemma py_getitem_nonneg {A} (l : list A) i :
  0 ≤ i < Z.of_nat (length l) → py_getitem l i = l !! Z.to_nat i.
Proof. intros Hi. unfold py_getitem. by rewrite py_index_nonneg. Qed.

Lemma lookup_zip3 {A B C} (l1 : list A) (l2 : list B) (l3 : list C) i x y z :
  zip3 l1 l2 l3 !! i = Some (x, y, z)
  ↔ l1 !! i = Some x ∧ l2 !! i = Some y ∧ l3 !! i = Some z.
Proof.
  unfold zip3. rewrite lookup_zip_with_Some. split.
  - intros ([x' y'] & z' & Heq & Hxy & Hz). injection Heq as <- <- <-.
    apply lookup_zip_with_Some in Hxy as (x'' & y'' & Heq & Hx & Hy).
    injection Heq as <- <-. done.
  - intros (Hx & Hy & Hz). exists (x, y), z. split; [done|]. split; [|done].
    apply lookup_zip_with_Some. by exists x, y.
Qed.

Lemma check_dense_ids_sound df cs1 vs :
  check_dense_ids df cs1 vs = true → dense_ids df cs1 vs.
Proof.
  unfold check_dense_ids. rewrite forallb_forall. intros Hall i col1 lv H1 H2.
  specialize (Hall (col1, lv)). simpl in Hall.
  rewrite andb_true_iff in Hall. destruct Hall as [Hw Hc].
  { apply list_elem_of_In, list_elem_of_lookup. exists i.
    apply lookup_zip_with_Some. by exists col1, lv. }
  split.
  - apply Forall_forall. intros row Hrow. rewrite forallb_forall in Hw.
    apply list_elem_of_In, Hw in Hrow. by apply bool_decide_eq_true in Hrow.
  - destruct (column df col1) as [c|]; [|done]. exists c. split; [done|].
    apply Forall_forall. intros v Hv. rewrite forallb_forall in Hc.
    apply list_elem_of_In, Hc in Hv. by apply bool_decide_eq_true in Hv.
Qed.

Lemma dense_ids_ok df cs1 cs2 vs :
  dense_ids df cs1 vs → Forall (triple_ok df) (zip3 cs1 cs2 vs).
Proof.
  intros Hdense. apply Forall_lookup. intros i [[col1 col2] lv] Hi.
  apply lookup_zip3 in Hi as (H1 & H2 & H3).
  destruct (Hdense i col1 lv H1 H3) as (Hw & c & Hc & Hrange).
  unfold column in Hc. destruct (field col1) as [f|] eqn:Hf; [|done].
  simpl in Hc. injection Hc as <-.
  exists f. split; [done|]. simpl.
  rewrite Forall_fmap in Hrange. eapply Forall_impl; [exact Hrange|].
  intros r Hr. simpl in Hr. rewrite py_getitem_nonneg by done.
  destruct (lookup_lt_is_Some_2 lv (Z.to_nat (f r))) as [v Hv]; [lia|].
  exists v. split; [done|]. rewrite Forall_forall in Hw.
  apply Hw. by eapply list_elem_of_lookup_2.
Qed.

Lemma slices_lookup df ts i t row :
  Forall (triple_ok df) ts → ts !! i = Some t → row ∈ df →
  take width (drop (i * width) (slices ts row)) = latent_row t row.
Proof.
  intros Hok Ht Hin. unfold slices. apply (concat_block width).
  - apply Forall_fmap. eapply Forall_impl; [exact Hok|].
    intros t' Htok. simpl. by eapply latent_row_length.
  - by rewrite list_lookup_fmap, Ht.
Qed.

Lemma latent_row_dense df cs1 vs i col1 col2 lv f row :
  dense_ids df cs1 vs → cs1 !! i = Some col1 → vs !! i = Some lv →
  field col1 = Some f → row ∈ df →
  lv !! Z.to_nat (f row) = Some (latent_row (col1, col2, lv) row).
Proof.
  intros Hdense Hc1 Hlv Hf Hin.
  destruct (Hdense i col1 lv Hc1 Hlv) as (_ & c & Hc & Hrange).
  unfold column in Hc. rewrite Hf in Hc. simpl in Hc. injection Hc as <-.
  rewrite Forall_fmap, Forall_forall in Hrange. specialize (Hrange row Hin). simpl in Hrange.
  unfold latent_row. simpl. rewrite Hf. simpl. rewrite py_getitem_nonneg by done.
  destruct (lookup_lt_is_Some_2 lv (Z.to_nat (f row))) as [v Hv]; [lia|].
  by rewrite Hv.
Qed.

(** C1. When every latent matrix has [width] columns and every value of
    a triple's first column is a dense zero-based id in range for that
    triple's matrix, [get_feature] returns a table with one row per data
    row in which, for every triple [i] and row [r], the columns
    [i*width, (i+1)*width) hold the latent row at index [dataset[r][col1]]. *)
Theorem get_feature_broadcast path df cs1 cs2 vs :
  read_feather path = Some df →
  length cs2 = length cs1 → length vs = length cs1 →
  dense_ids df cs1 vs →
  ∃ frame,
    get_feature path cs1 cs2 vs = Some frame
    ∧ length (data frame) = length df
    ∧ ∀ i r col1 lv c val frow,
        cs1 !! i = Some col1 → vs !! i = Some lv →
        column df col1 = Some c → c !! r = Some val →
        data frame !! r = Some frow →
        lv !! Z.to_nat val = Some (take width (drop (i * width) frow)).
Proof.
  intros Hread H2 H3 Hdense.
  pose proof (dense_ids_ok df cs1 cs2 vs Hdense) as Hok.
  eexists. split; [by apply get_feature_closed|]. simpl.
  split; [by rewrite length_fmap|].
  intros i r col1 lv c val frow Hc1 Hlv Hc Hval Hfrow.
  destruct (lookup_lt_is_Some_2 cs2 i) as [col2 Hc2].
  { rewrite H2. by eapply lookup_lt_Some. }
  assert (Ht : zip3 cs1 cs2 vs !! i = Some (col1, col2, lv)) by by apply lookup_zip3.
  unfold column in Hc. destruct (field col1) as [f|] eqn:Hf; [|done].
  simpl in Hc. injection Hc as <-.
  apply list_lookup_fmap_Some in Hval as (row & -> & Hrow).
  rewrite list_lookup_fmap, Hrow in Hfrow. injection Hfrow as <-.
  assert (Hin : row ∈ df) by by eapply list_elem_of_lookup_2.
  rewrite (slices_lookup df _ i (col1, col2, lv)) by done.
  by eapply latent_row_dense.
Qed.

(** C8. Under the same precondition, the table's columns for the [i]-th
    pair [(col1, col2)] are named [name-col1-col2-j] for [j] from 0 to
    [width - 1], in that order, at positions [i*width + j], and the table
    has (number of pairs) × [width] columns. *)
Theorem get_feature_column_names path df cs1 cs2 vs :
  read_feather path = Some df →
  length cs2 = length cs1 → length vs = length cs1 →
  dense_ids df cs1 vs →
  ∃ frame,
    get_feature path cs1 cs2 vs = Some frame
    ∧ length (columns frame) = (length cs1 * width)%nat
    ∧ ∀ i j col1 col2,
        cs1 !! i = Some col1 → cs2 !! i = Some col2 → (j < width)%nat →
        columns frame !! (i * width + j)%nat
        = Some (name +:+ "-" +:+ col1 +:+ "-" +:+ col2 +:+ "-" +:+ pretty j).
Proof.
  intros Hread H2 H3 Hdense.
  pose proof (dense_ids_ok df cs1 cs2 vs Hdense) as Hok.
  assert (Hblocks : Forall (λ l : list string, length l = width)
                      (triple_columns <$> zip3 cs1 cs2 vs)).
  { apply Forall_fmap, Forall_true. intros t. simpl. unfold triple_columns.
    by rewrite length_fmap, length_seq. }
  eexists. split; [by apply get_feature_closed|]. simpl. split.
  - rewrite (length_concat_blocks width), length_fmap by done.
    unfold zip3. rewrite !length_zip_with. lia.
  - intros i j col1 col2 Hc1 Hc2 Hj.
    destruct (lookup_lt_is_Some_2 vs i) as [lv Hlv].
    { rewrite H3. by eapply lookup_lt_Some. }
    assert (Ht : zip3 cs1 cs2 vs !! i = Some (col1, col2, lv)) by by apply lookup_zip3.
    rewrite <- lookup_drop, <- (lookup_take_lt _ width j Hj).
    erewrite (concat_block width); [|done|by rewrite list_lookup_fmap, Ht].
    unfold triple_columns. simpl.
    by rewrite list_lookup_fmap, lookup_seq_lt.
Qed.

(** ** The worker pool *)

Lemma pool_inv_init {J R} (f : J → option R) (jobs : list J) :
  pool_inv f jobs (mkPool (enumerate jobs) [] (replicate (length jobs) None)).
Proof.
  unfold pool_inv, pending, enumerate. simpl. rewrite app_nil_r.
  assert (Hfst : (zip (seq 0 (length jobs)) jobs).*1 = seq 0 (length jobs)).
  { apply fst_zip. by rewrite length_seq. }
  split; [by rewrite length_replicate|]. split; [rewrite Hfst; apply NoDup_seq|]. split.
  - intros i job Hin. apply list_elem_of_lookup in Hin as [k Hk].
    apply lookup_zip_with_Some in Hk as (i' & job' & Heq & Hi & Hjob).
    injection Heq as <- <-. apply lookup_seq in Hi as [-> _]. done.
  - intros i job Hjob Hnot. exfalso. apply Hnot. rewrite Hfst.
    apply elem_of_seq. apply lookup_lt_Some in Hjob. lia.
Qed.

Lemma dispatch_pending {J R} workers (st : pool_state J R) :
  pending (dispatch workers st) ≡ₚ pending st.
Proof.
  unfold pending, dispatch. simpl.
  rewrite (Permutation_app_comm (running st)), app_assoc.
  rewrite (Permutation_app_comm (drop _ _)), take_drop. done.
Qed.

Lemma pool_inv_perm {J R} (f : J → option R) jobs (st st' : pool_state J R) :
  pending st' ≡ₚ pending st → slots st' = slots st →
  pool_inv f jobs st → pool_inv f jobs st'.
Proof.
  intros Hperm Hslots (Hlen & Hnodup & Hjob & Hdone).
  unfold pool_inv. rewrite Hslots. split; [done|]. split; [by rewrite Hperm|]. split.
  - intros i job Hin. apply Hjob. by rewrite <- Hperm.
  - intros i job Hi Hnot. apply Hdone; [done|]. by rewrite <- Hperm.
Qed.

Lemma pool_inv_dispatch {J R} (f : J → option R) jobs workers (st : pool_state J R) :
  pool_inv f jobs st → pool_inv f jobs (dispatch workers st).
Proof. apply pool_inv_perm; [apply dispatch_pending | done]. Qed.

Lemma pool_inv_complete {J R} (f : J → option R) jobs k i job (st : pool_state J R) :
  running st !! k = Some (i, job) →
  pool_inv f jobs st →
  pool_inv f jobs (complete f k st)
  ∧ length (pending st) = S (length (pending (complete f k st))).
Proof.
  intros Hk (Hlen & Hnodup & Hjob & Hdone).
  assert (Hsplit : running st = take k (running st) ++ (i, job) :: drop (S k) (running st)).
  { by rewrite take_drop_middle. }
  assert (Hdel : delete k (running st) = take k (running st) ++ drop (S k) (running st)).
  { by rewrite delete_take_drop. }
  assert (Hperm : pending st ≡ₚ (i, job) :: pending (complete f k st)).
  { unfold pending, complete. rewrite Hk. simpl. rewrite Hdel.
    rewrite Hsplit at 1. by rewrite !Permutation_middle. }
  split; [|by rewrite Hperm].
  rewrite Hperm in Hnodup. rewrite fmap_cons in Hnodup. simpl in Hnodup.
  apply NoDup_cons in Hnodup as [Hfresh Hnodup].
  assert (Hi : jobs !! i = Some job).
  { apply Hjob. rewrite Hperm. left. }
  unfold pool_inv. split; [|split; [done|split]].
  - unfold complete. rewrite Hk. simpl. by rewrite length_insert.
  - intros i' job' Hin. apply Hjob. rewrite Hperm. by right.
  - intros i' job' Hjob' Hnot. unfold complete. rewrite Hk. simpl.
    destruct (decide (i' = i)) as [-> | Hne].
    + rewrite list_lookup_insert_eq by (rewrite Hlen; by eapply lookup_lt_Some).
      congruence.
    + rewrite list_lookup_insert_ne by done. apply Hdone; [done|].
      rewrite Hperm, fmap_cons. simpl. apply not_elem_of_cons. done.
Qed.

Lemma pool_run_S {J R} workers (f : J → option R) fuel sched (st : pool_state J R) :
  pool_run workers f (S fuel) sched st
  = match running (dispatch workers st) with
    | [] => dispatch workers st
    | _ :: _ =>
        pool_run workers f fuel (tl sched)
          (complete f (hd 0%nat sched `mod` length (running (dispatch workers st)))%nat
             (dispatch workers st))
    end.
Proof. done. Qed.

Lemma dispatch_idle {J R} workers (st : pool_state J R) :
  (0 < workers)%nat → running (dispatch workers st) = [] → pending (dispatch workers st) = [].
Proof.
  intros Hw Hrun. unfold pending. rewrite Hrun, app_nil_r.
  unfold dispatch in *. simpl in *.
  apply app_eq_nil in Hrun as [Hr Hq]. rewrite Hr in *. simpl in *.
  destruct (queue st) as [|q qs]; [by rewrite drop_nil|].
  rewrite Nat.sub_0_r in Hq. destruct workers; [lia | done].
Qed.

Lemma pool_run_done {J R} (f : J → option R) jobs workers :
  (0 < workers)%nat →
  ∀ fuel sched (st : pool_state J R),
    pool_inv f jobs st → (length (pending st) ≤ fuel)%nat →
    pool_inv f jobs (pool_run workers f fuel sched st)
    ∧ pending (pool_run workers f fuel sched st) = [].
Proof.
  intros Hw. induction fuel as [|fuel IH]; intros sched st Hinv Hfuel.
  - simpl. split; [done|]. apply nil_length_inv. lia.
  - rewrite pool_run_S.
    pose proof (pool_inv_dispatch f jobs workers st Hinv) as Hinv'.
    pose proof (dispatch_pending workers st) as Hperm.
    pose proof (dispatch_idle workers st Hw) as Hidle.
    set (st1 := dispatch workers st) in *.
    destruct (running st1) as [|x run] eqn:Hrun; [by split; [|apply Hidle]|].
    rewrite <- Hrun.
    set (k := (hd 0%nat sched `mod` length (running st1))%nat).
    destruct (lookup_lt_is_Some_2 (running st1) k) as [[i job] Hk].
    { apply Nat.mod_upper_bound. rewrite Hrun. done. }
    destruct (pool_inv_complete f jobs k i job _ Hk Hinv') as [Hinv'' Hless].
    apply IH; [done|]. rewrite Hperm in Hless. lia.
Qed.

Lemma mapM_id_fmap {A B} (f : A → option B) (l : list A) :
  mapM id (f <$> l) = mapM f l.
Proof. induction l as [|x l IH]; [done|]. rewrite fmap_cons. cbn [mapM]. by rewrite IH. Qed.

Lemma mapM_id_Some {A} (l : list A) : mapM id (Some <$> l) = Some l.
Proof. induction l as [|x l IH]; [done|]. rewrite fmap_cons. cbn [mapM]. by rewrite IH. Qed.

(** Whatever the order in which the workers finish, the pool returns what
    a sequential [map] returns. *)
Lemma pool_map_sequential {J R} workers sched (f : J → option R) (jobs : list J) :
  (0 < workers)%nat → pool_map workers sched f jobs = mapM f jobs.
Proof.
  intros Hw. unfold pool_map.
  destruct (pool_run_done f jobs workers Hw (length jobs) sched
              (mkPool (enumerate jobs) [] (replicate (length jobs) None)))
    as [(Hlen & _ & _ & Hdone) Hnil].
  { apply pool_inv_init. }
  { unfold pending, enumerate. simpl. rewrite app_nil_r, length_zip_with, length_seq. lia. }
  set (st := pool_run _ _ _ _ _) in *.
  assert (Hslots : slots st = Some <$> (f <$> jobs)).
  { apply list_eq. intros i. rewrite !list_lookup_fmap.
    destruct (jobs !! i) as [job|] eqn:Hjob; simpl.
    - apply Hdone; [done|]. rewrite Hnil. apply not_elem_of_nil.
    - apply lookup_ge_None. rewrite Hlen. by apply lookup_ge_None. }
  rewrite Hslots, mapM_id_Some. simpl. apply mapM_id_fmap.
Qed.

(** ** The pairwise pipeline: [transform] *)

Lemma collect_unzip results : ∀ col1s col2s lvs,
  foldl collect (col1s, col2s, lvs) results
  = (col1s ++ results.*1.*1, col2s ++ results.*1.*2, lvs ++ (astype <$> results.*2)).
Proof.
  induction results as [|[[c1 c2] lv] results IH]; intros col1s col2s lvs.
  - simpl. by rewrite !app_nil_r.
  - simpl. rewrite IH. by rewrite <- !app_assoc.
Qed.

Lemma transform_unfold sched dataframe :
  transform sched dataframe
  = (results ← mapM (compute_latent_vectors dataframe) get_column_pairs;
     train_path ← load_name "train_path";
     train ← get_feature train_path results.*1.*1 results.*1.*2 (astype <$> results.*2);
     test_path ← load_name "test_path";
     test ← get_feature test_path results.*1.*1 results.*1.*2 (astype <$> results.*2);
     Some (train, test)).
Proof.
  unfold transform. rewrite pool_map_sequential by lia.
  destruct (mapM _ _) as [results|]; [|done]. simpl.
  by rewrite collect_unzip.
Qed.

Lemma compute_latent_vectors_names dataframe col1 col2 res :
  compute_latent_vectors dataframe (col1, col2) = Some res →
  res.1 = (col1, col2).
Proof.
  unfold compute_latent_vectors. intros Hres.
  destruct (create_document_term_matrix dataframe col1 col2) as [dtm|]; [|done].
  simpl in Hres. destruct (transformer_fit_transform dtm) as [lv|]; [|done].
  simpl in Hres. by injection Hres as <-.
Qed.

(** C4. The claim is not what the code does: once the pool has returned,
    [transform] reads [train_path], a name that is neither a parameter, nor
    a local, nor bound by the module, and raises [NameError]; the same
    holds for [test_path].  So on every dataset and for every worker
    schedule no table is returned. *)
Theorem transform_name_error sched dataframe :
  load_name "train_path" = None
  ∧ load_name "test_path" = None
  ∧ transform sched dataframe = None.
Proof.
  split; [by apply (bool_decide_unpack _)|]. split; [by apply (bool_decide_unpack _)|].
  rewrite transform_unfold. by destruct (mapM _ _).
Qed.

(** ** The Composite Key Builder *)

Lemma first_seen_snoc ks k :
  first_seen (ks ++ [k])
  = if decide (k ∈ first_seen ks) then first_seen ks else first_seen ks ++ [k].
Proof. unfold first_seen. by rewrite foldl_app. Qed.

Lemma first_seen_elem ks k : k ∈ first_seen ks ↔ k ∈ ks.
Proof.
  induction ks as [|k' ks IH] using rev_ind; [done|].
  rewrite first_seen_snoc. case_decide as Hin.
  - rewrite elem_of_app, list_elem_of_singleton, <- IH.
    split; [by left|]. intros [?| ->]; done.
  - rewrite !elem_of_app, IH. done.
Qed.

Lemma first_seen_NoDup ks : NoDup (first_seen ks).
Proof.
  induction ks as [|k ks IH] using rev_ind; [constructor|].
  rewrite first_seen_snoc. case_decide as Hin; [done|].
  apply NoDup_app. split; [done|]. split; [|apply NoDup_singleton].
  intros x Hx ->%list_elem_of_singleton. done.
Qed.

Lemma key_tokens_snoc df r k :
  key_tokens (df ++ [r]) k
  = key_tokens df k ++ (if decide (pack r = k) then [app r] else []).
Proof.
  unfold key_tokens. rewrite filter_app, fmap_app. f_equal.
  rewrite filter_cons. by case_decide.
Qed.

Lemma key_tokens_absent df k : k ∉ pack <$> df → key_tokens df k = [].
Proof.
  intros Hk. unfold key_tokens.
  induction df as [|r df IH]; [done|].
  rewrite fmap_cons in Hk. apply not_elem_of_cons in Hk as [Hne Hk].
  rewrite filter_cons, decide_False by done. by apply IH.
Qed.

Lemma index_of_lookup k ks i : index_of k ks = Some i → ks !! i = Some k.
Proof.
  revert i. induction ks as [|k' ks IH]; intros i Hi; [done|].
  simpl in Hi. case_decide as Hk; [by simplify_eq|].
  destruct (index_of k ks) as [j|]; [|done]. simpl in Hi. simplify_eq. by apply IH.
Qed.

Lemma index_of_None k ks : index_of k ks = None ↔ k ∉ ks.
Proof.
  induction ks as [|k' ks IH]; [split; [intros _; apply not_elem_of_nil | done]|].
  simpl. case_decide as Hk.
  - subst. split; [done|]. intros Hnot. exfalso. apply Hnot. left.
  - rewrite not_elem_of_cons, <- IH. destruct (index_of k ks); simpl.
    + split; [done|]. intros [_ ?]. done.
    + split; [|done]. intros _. split; [congruence | done].
Qed.

Lemma index_of_NoDup k ks i : NoDup ks → ks !! i = Some k → index_of k ks = Some i.
Proof.
  intros Hnd Hi. destruct (index_of k ks) as [j|] eqn:Hj.
  - apply index_of_lookup in Hj. f_equal. by eapply NoDup_lookup.
  - apply index_of_None in Hj. exfalso. apply Hj. by eapply list_elem_of_lookup_2.
Qed.

Lemma dict_get_zip_seq k ks n :
  dict_get (zip ks (seq n (length ks))) k = (λ i, (n + i)%nat) <$> index_of k ks.
Proof.
  revert n. induction ks as [|k' ks IH]; intros n; [done|].
  simpl. case_decide; [simpl; f_equal; lia|].
  rewrite IH. destruct (index_of k ks); simpl; [f_equal; lia | done].
Qed.

Lemma dict_get_numbered k ks : dict_get (numbered ks) k = index_of k ks.
Proof. unfold numbered. rewrite dict_get_zip_seq. by destruct (index_of k ks). Qed.

Lemma dict_set_fresh {V} (d : list (Z * V)) k v :
  dict_get d k = None → dict_set d k v = d ++ [(k, v)].
Proof.
  induction d as [|[k' v'] d IH]; intros Hk; [done|].
  simpl in *. case_decide; [done|]. by rewrite IH.
Qed.

Lemma numbered_snoc ks k : numbered (ks ++ [k]) = numbered ks ++ [(k, length ks)].
Proof.
  unfold numbered. rewrite length_app. simpl.
  rewrite seq_app, zip_with_app by (by rewrite length_seq). done.
Qed.

Lemma dict_set_numbered ks k :
  k ∉ ks → dict_set (numbered ks) k (length ks) = numbered (ks ++ [k]).
Proof.
  intros Hk. rewrite dict_set_fresh, numbered_snoc; [done|].
  rewrite dict_get_numbered. by apply index_of_None.
Qed.

Lemma length_numbered ks : length (numbered ks) = length ks.
Proof. unfold numbered. rewrite length_zip_with, length_seq. lia. Qed.

(** The first loop leaves the first-seen keys numbered from 0 and, at
    each id, the tokens of that key. *)
Lemma accumulate_closed df :
  foldl accumulate ([], []) df
  = (numbered (first_seen (pack <$> df)), key_tokens df <$> first_seen (pack <$> df)).
Proof.
  induction df as [|r df IH] using rev_ind; [done|].
  rewrite foldl_app, IH, fmap_app. change (pack <$> [r]) with [pack r].
  rewrite first_seen_snoc. cbn [foldl]. unfold accumulate.
  set (K := first_seen (pack <$> df)).
  pose proof (first_seen_NoDup (pack <$> df)) as Hnd. fold K in Hnd.
  rewrite dict_get_numbered. case_decide as Hin.
  - destruct (index_of (pack r) K) as [i|] eqn:Hi.
    2:{ apply index_of_None in Hi. done. }
    pose proof (index_of_lookup _ _ _ Hi) as HKi. f_equal.
    rewrite length_fmap.
    replace (S i - length K)%nat with 0%nat by (apply lookup_lt_Some in HKi; lia).
    simpl. rewrite app_nil_r.
    apply list_eq. intros j. rewrite list_lookup_alter, !list_lookup_fmap.
    destruct (K !! j) as [k|] eqn:HKj; simpl.
    + rewrite key_tokens_snoc. case_decide as Hij.
      * subst j. rewrite HKi. simpl. simplify_eq. by rewrite decide_True.
      * rewrite decide_False; [by rewrite app_nil_r|].
        intros <-. apply Hij. by eapply NoDup_lookup.
    + case_decide; [subst; congruence | done].
  - rewrite (proj2 (index_of_None _ _) Hin).
    rewrite length_numbered, dict_set_numbered by done. f_equal.
    rewrite length_fmap. replace (S (length K) - length K)%nat with 1%nat by lia.
    simpl. rewrite fmap_app. simpl.
    rewrite key_tokens_snoc, decide_True by done.
    rewrite key_tokens_absent by (by rewrite <- first_seen_elem).
    apply list_eq. intros j. rewrite list_lookup_alter.
    case_decide as Hj.
    + subst j. rewrite !lookup_app_r by (by rewrite length_fmap).
      by rewrite !length_fmap, Nat.sub_diag.
    + destruct (decide (j < length K)%nat) as [Hlt | Hge].
      * rewrite !lookup_app_l by (by rewrite length_fmap).
        rewrite !list_lookup_fmap.
        destruct (K !! j) as [k|] eqn:HKj; [|done]. simpl.
        rewrite key_tokens_snoc, decide_False; [by rewrite app_nil_r|].
        intros <-. apply Hin. by eapply list_elem_of_lookup_2.
      * rewrite !lookup_app_r by (rewrite length_fmap; lia). rewrite !length_fmap.
        destruct (j - length K)%nat as [|n] eqn:Hn; [lia|]. done.
Qed.

Lemma renumber_eq values new_values new_mask_to_id mask mask_id toks :
  values !! mask_id = Some toks →
  renumber values (new_values, new_mask_to_id) (mask, mask_id)
  = if decide (threshold ≤ length toks)%nat
    then Some (new_values ++ [toks], dict_set new_mask_to_id mask (length new_values))
    else Some (new_values, new_mask_to_id).
Proof. intros Hv. unfold renumber. rewrite Hv. done. Qed.

(** The second loop keeps the keys that reach the threshold, in the
    order of the first loop's map, and numbers them from 0. *)
Lemma renumber_loop (T : Z → list Z) K K2 : ∀ K1,
  K = K1 ++ K2 → NoDup K →
  for_each (renumber (T <$> K))
    (T <$> filter (λ k, (threshold ≤ length (T k))%nat) K1,
     numbered (filter (λ k, (threshold ≤ length (T k))%nat) K1))
    (zip K2 (seq (length K1) (length K2)))
  = Some (T <$> filter (λ k, (threshold ≤ length (T k))%nat) K,
          numbered (filter (λ k, (threshold ≤ length (T k))%nat) K)).
Proof.
  induction K2 as [|k K2 IH]; intros K1 HK Hnd.
  - rewrite app_nil_r in HK. by subst.
  - cbn [length seq zip zip_with for_each].
    assert (Hk : (T <$> K) !! length K1 = Some (T k)).
    { rewrite list_lookup_fmap, HK, list_lookup_middle; done. }
    assert (Hfresh : k ∉ filter (λ k, (threshold ≤ length (T k))%nat) K1).
    { rewrite HK in Hnd. apply NoDup_app in Hnd as (_ & Hdisj & _).
      intros Hin%list_elem_of_filter. destruct Hin as [_ Hin].
      apply (Hdisj k Hin). left. }
    assert (HK' : K = (K1 ++ [k]) ++ K2) by (by rewrite <- app_assoc).
    specialize (IH (K1 ++ [k]) HK' Hnd).
    rewrite length_app in IH. simpl in IH. rewrite Nat.add_1_r in IH.
    rewrite filter_app, filter_cons, filter_nil in IH.
    rewrite (renumber_eq _ _ _ _ _ _ Hk).
    destruct (decide (threshold ≤ length (T k))%nat) as [Hge | Hlt].
    + simpl. rewrite length_fmap, dict_set_numbered by done.
      rewrite fmap_app in IH. exact IH.
    + simpl. rewrite app_nil_r in IH. exact IH.
Qed.

Lemma build_keys_closed df :
  build_keys df
  = Some (key_tokens df <$> surviving_keys df, numbered (surviving_keys df)).
Proof.
  unfold build_keys. rewrite accumulate_closed.
  pose proof (renumber_loop (key_tokens df) (first_seen (pack <$> df))
                (first_seen (pack <$> df)) [] eq_refl (first_seen_NoDup _)) as Hloop.
  simpl in Hloop. unfold numbered at 1. exact Hloop.
Qed.

(** ** The composite-key broadcast *)

Lemma fill_loop components kept df :
  length components = length kept →
  Forall (λ row, length row = n_components) components →
  for_each (fill components (numbered kept))
    (replicate (length df) (replicate n_components zero32)) (enumerate df)
  = Some (feature_row components kept <$> df).
Proof.
  intros Hrows Hcols.
  set (g := λ (row : list F32) (r : Row),
         match index_of (pack r) kept with
         | Some mask_id => astype_float32 <$> default [] (components !! mask_id)
         | None => row
         end).
  set (Q := λ (row : list F32) (r : Row), length row = n_components).
  rewrite (for_each_enumerate_rows _ g Q).
  - f_equal. clear. induction df as [|r df IH]; [done|].
    rewrite fmap_cons. cbn [length replicate zip_with]. rewrite IH.
    unfold g, feature_row. by destruct (index_of (pack r) kept).
  - intros fs j r row Hrow Hlrow. unfold fill, g. rewrite dict_get_numbered.
    destruct (index_of (pack r) kept) as [mask_id|] eqn:Hid.
    + apply index_of_lookup, lookup_lt_Some in Hid.
      destruct (lookup_lt_is_Some_2 components mask_id) as [v Hv]; [lia|].
      assert (Hlen : length (astype_float32 <$> v) = length row).
      { rewrite length_fmap, Hlrow. rewrite Forall_forall in Hcols.
        apply Hcols. by eapply list_elem_of_lookup_2. }
      rewrite Hv. cbn [mbind option_bind default]. rewrite Hrow. cbn [mbind option_bind].
      rewrite set_slice_full by done. done.
    + by rewrite list_insert_id.
  - clear. induction df as [|r df IH]; cbn [length replicate]; constructor; [|done].
    unfold Q. by rewrite length_replicate.
Qed.

(** The pipeline in closed form, once the vectorizer and the factorizer
    have answered with one [n_components]-wide row per document. *)
Lemma UserItemLDA_closed df_train df_test dtm components :
  count_vectorizer (min_df_for (length (df_train ++ df_test)))
    (join_tokens <$> (key_tokens (df_train ++ df_test)
                        <$> surviving_keys (df_train ++ df_test))) = Some dtm →
  lda_fit_transform n_components dtm = Some components →
  length components = length (surviving_keys (df_train ++ df_test)) →
  Forall (λ row, length row = n_components) components →
  UserItemLDA df_train df_test
  = Some (mkFrame (feature_row components (surviving_keys (df_train ++ df_test)) <$> df_train)
            (feature_columns n_components),
          mkFrame (feature_row components (surviving_keys (df_train ++ df_test)) <$> df_test)
            (feature_columns n_components)).
Proof.
  intros Hvec Hlda Hrows Hcols. unfold UserItemLDA.
  rewrite build_keys_closed. simpl. rewrite Hvec. simpl. rewrite Hlda. simpl.
  rewrite fill_loop by done. simpl.
  rewrite fmap_app.
  rewrite take_app_length' by (by rewrite length_fmap).
  rewrite drop_app_length' by (by rewrite length_fmap). done.
Qed.

Lemma surviving_keys_NoDup df : NoDup (surviving_keys df).
Proof. apply NoDup_filter, first_seen_NoDup. Qed.

Lemma surviving_keys_elem df k :
  k ∈ surviving_keys df
  ↔ k ∈ pack <$> df ∧ (threshold ≤ length (key_tokens df k))%nat.
Proof.
  unfold surviving_keys. rewrite list_elem_of_filter, first_seen_elem.
  split; intros [H1 H2]; done.
Qed.

Lemma feature_row_dropped components df row :
  (length (key_tokens df (pack row)) < threshold)%nat →
  feature_row components (surviving_keys df) row = replicate n_components zero32.
Proof.
  intros Hlt. unfold feature_row.
  rewrite (proj2 (index_of_None _ _)); [done|].
  rewrite surviving_keys_elem. intros [_ Hge]. lia.
Qed.

Lemma feature_row_kept components df row mask_id :
  length components = length (surviving_keys df) →
  surviving_keys df !! mask_id = Some (pack row) →
  ∃ v, components !! mask_id = Some v
       ∧ feature_row components (surviving_keys df) row = astype_float32 <$> v.
Proof.
  intros Hrows Hid.
  destruct (lookup_lt_is_Some_2 components mask_id) as [v Hv].
  { rewrite Hrows. by eapply lookup_lt_Some. }
  exists v. split; [done|]. unfold feature_row.
  rewrite (index_of_NoDup _ _ mask_id) by (done || apply surviving_keys_NoDup).
  by rewrite Hv.
Qed.

(** C2. Once the vectorizer and the factorizer have answered with one
    [n_components]-wide row per document, the composite-key pipeline
    returns its two tables and: the filtered map holds exactly the keys
    whose token list has at least [threshold] (3) entries, numbered 0, 1,
    2, ... in their first-seen order; a row whose key has fewer than
    [threshold] tokens gets the all-zero vector; a row whose key survived
    with id [mask_id] gets row [mask_id] of the latent matrix (as float32). *)
Theorem UserItemLDA_threshold_filter df_train df_test dtm components :
  count_vectorizer (min_df_for (length (df_train ++ df_test)))
    (join_tokens <$> (key_tokens (df_train ++ df_test)
                        <$> surviving_keys (df_train ++ df_test))) = Some dtm →
  lda_fit_transform n_components dtm = Some components →
  length components = length (surviving_keys (df_train ++ df_test)) →
  Forall (λ row, length row = n_components) components →
  build_keys (df_train ++ df_test)
  = Some (key_tokens (df_train ++ df_test) <$> surviving_keys (df_train ++ df_test),
          zip (surviving_keys (df_train ++ df_test))
              (seq 0 (length (surviving_keys (df_train ++ df_test)))))
  ∧ (∀ k, k ∈ surviving_keys (df_train ++ df_test)
          ↔ k ∈ pack <$> (df_train ++ df_test)
            ∧ (threshold ≤ length (key_tokens (df_train ++ df_test) k))%nat)
  ∧ surviving_keys (df_train ++ df_test) `sublist_of` first_seen (pack <$> (df_train ++ df_test))
  ∧ ∃ train test,
      UserItemLDA df_train df_test = Some (train, test)
      ∧ length (data train) = length df_train
      ∧ length (data test) = length df_test
      ∧ ∀ r row frow,
          (df_train ++ df_test) !! r = Some row →
          (data train ++ data test) !! r = Some frow →
          ((length (key_tokens (df_train ++ df_test) (pack row)) < threshold)%nat →
             frow = replicate n_components zero32)
          ∧ (∀ mask_id,
               surviving_keys (df_train ++ df_test) !! mask_id = Some (pack row) →
               ∃ v, components !! mask_id = Some v ∧ frow = astype_float32 <$> v).
Proof.
  intros Hvec Hlda Hrows Hcols.
  split; [apply build_keys_closed|]. split; [apply surviving_keys_elem|].
  split; [apply sublist_filter|].
  eexists _, _. split; [by eapply UserItemLDA_closed|]. cbn [data].
  split; [by rewrite length_fmap|]. split; [by rewrite length_fmap|].
  intros r row frow Hrow Hfrow.
  rewrite <- fmap_app, list_lookup_fmap, Hrow in Hfrow. injection Hfrow as <-.
  split.
  - apply feature_row_dropped.
  - intros mask_id Hid. by apply feature_row_kept.
Qed.

(** ** Packing *)

Lemma lor_disjoint_add x b n :
  0 ≤ n → x `mod` 2 ^ n = 0 → 0 ≤ b < 2 ^ n → Z.lor x b = x + b.
Proof.
  intros Hn Hx Hb. symmetry. apply Z.add_nocarry_lor.
  apply Z.bits_inj'. intros m Hm. rewrite Z.land_spec, Z.bits_0.
  destruct (decide (m < n)) as [Hlt | Hge].
  - rewrite <- (Z.mod_pow2_bits_low x n m) by lia. by rewrite Hx, Z.bits_0.
  - rewrite <- (Z.mod_small b (2 ^ n)) by done.
    rewrite Z.mod_pow2_bits_high by lia. apply andb_false_r.
Qed.

Lemma pack_in_width r :
  in_width r →
  pack r = ip r * 2 ^ 44 + device r * 2 ^ 20 + os r * 2 ^ 10 + channel r.
Proof.
  intros (Hc & Ho & Hd). unfold pack. rewrite !Z.shiftl_mul_pow2 by lia.
  rewrite (lor_disjoint_add (ip r * 2 ^ 44) (device r * 2 ^ 20) 44); [|lia| |lia].
  2:{ apply Z.mod_mul. lia. }
  rewrite (lor_disjoint_add _ (os r * 2 ^ 10) 20); [|lia| |lia].
  2:{ replace (ip r * 2 ^ 44 + device r * 2 ^ 20)
        with ((ip r * 2 ^ 24 + device r) * 2 ^ 20) by lia.
      apply Z.mod_mul. lia. }
  rewrite (lor_disjoint_add _ (channel r) 10); [done|lia| |lia].
  replace (ip r * 2 ^ 44 + device r * 2 ^ 20 + os r * 2 ^ 10)
    with ((ip r * 2 ^ 34 + device r * 2 ^ 10 + os r) * 2 ^ 10) by lia.
  apply Z.mod_mul. lia.
Qed.

Lemma pack_inj row1 row2 :
  in_width row1 → in_width row2 → pack row1 = pack row2 →
  key_tuple row1 = key_tuple row2.
Proof.
  intros H1 H2. rewrite !pack_in_width by done.
  destruct H1 as (Hc1 & Ho1 & Hd1), H2 as (Hc2 & Ho2 & Hd2).
  unfold key_tuple. intros Heq.
  assert (channel row1 = channel row2) by lia.
  assert (os row1 = os row2) by lia.
  assert (device row1 = device row2) by lia.
  assert (ip row1 = ip row2) by lia.
  congruence.
Qed.

Lemma feature_row_pack components kept row1 row2 :
  pack row1 = pack row2 →
  feature_row components kept row1 = feature_row components kept row2.
Proof. intros Heq. unfold feature_row. by rewrite Heq. Qed.

(** C3, as the code has it. The pipeline makes no bounds check on the
    packed columns: on every input, overflowing or not, for which the
    vectorizer and the factorizer answer, it returns its tables, and two
    rows with the same packed key receive the same feature vector even
    when their key tuples differ.  Distinct tuples can only share a key
    outside the bit widths: on rows with [channel < 2^10], [os < 2^10] and
    [device < 2^24] (all non-negative) the packing is injective. *)
Theorem UserItemLDA_packing_unchecked df_train df_test dtm components :
  count_vectorizer (min_df_for (length (df_train ++ df_test)))
    (join_tokens <$> (key_tokens (df_train ++ df_test)
                        <$> surviving_keys (df_train ++ df_test))) = Some dtm →
  lda_fit_transform n_components dtm = Some components →
  length components = length (surviving_keys (df_train ++ df_test)) →
  Forall (λ row, length row = n_components) components →
  (∃ train test,
     UserItemLDA df_train df_test = Some (train, test)
     ∧ ∀ r1 r2 row1 row2 frow1 frow2,
         (df_train ++ df_test) !! r1 = Some row1 →
         (df_train ++ df_test) !! r2 = Some row2 →
         pack row1 = pack row2 →
         (data train ++ data test) !! r1 = Some frow1 →
         (data train ++ data test) !! r2 = Some frow2 →
         frow1 = frow2)
  ∧ (∀ row1 row2,
       in_width row1 → in_width row2 → pack row1 = pack row2 →
       key_tuple row1 = key_tuple row2).
Proof.
  intros Hvec Hlda Hrows Hcols. split; [|apply pack_inj].
  eexists _, _. split; [by eapply UserItemLDA_closed|]. cbn [data].
  intros r1 r2 row1 row2 frow1 frow2 H1 H2 Hpack Hf1 Hf2.
  rewrite <- fmap_app, list_lookup_fmap in Hf1, Hf2.
  rewrite H1 in Hf1. rewrite H2 in Hf2.
  injection Hf1 as <-. injection Hf2 as <-. by apply feature_row_pack.
Qed.

(** ** Train features and the test split *)

Lemma Single_closed (fit : nat → list (list Z) → option (list (list F64)))
    df_train df_test features :
  fit n_components (key_values (df_train ++ df_test)) = Some features →
  (features ← fit n_components (key_values (df_train ++ df_test));
   let features := astype features in
   train ← DataFrame_of n_components (take (length df_train) features)
              (feature_columns n_components);
   test ← DataFrame_of n_components (drop (length df_train) features)
              (feature_columns n_components);
   Some (train, test))
  = Some (mkFrame (take (length df_train) (astype features)) (feature_columns n_components),
          mkFrame (drop (length df_train) (astype features)) (feature_columns n_components)).
Proof. intros ->. done. Qed.




(** ** The vectorizer's cutoff *)

Lemma UserItemLDA_vectorizer_fails df_train df_test :
  count_vectorizer (min_df_for (length (df_train ++ df_test)))
    (join_tokens <$> (key_tokens (df_train ++ df_test)
                        <$> surviving_keys (df_train ++ df_test))) = None →
  UserItemLDA df_train df_test = None.
Proof.
  intros Hvec. unfold UserItemLDA. rewrite build_keys_closed. simpl. by rewrite Hvec.
Qed.

(** C10. The document-term matrix the composite-key pipeline factorizes
    is the one a vectorizer with a size-dependent cutoff builds.  Below
    1,000,000 combined rows it is [CountVectorizer(min_df=1)]: the pipeline
    raises when that vectorizer raises on the documents, and otherwise its
    tables are read off the LDA fitted on that vectorizer's matrix.  From
    1,000,000 rows on the same holds with [CountVectorizer(min_df=2)]. *)
Theorem UserItemLDA_min_df_cutoff df_train df_test :
  (Z.of_nat (length df_train + length df_test) < 1000000 →
     min_df_for (length (df_train ++ df_test)) = 1
     ∧ (count_vectorizer 1
          (join_tokens <$> (key_tokens (df_train ++ df_test)
                              <$> surviving_keys (df_train ++ df_test))) = None →
        UserItemLDA df_train df_test = None)
     ∧ ∀ dtm components,
         count_vectorizer 1
           (join_tokens <$> (key_tokens (df_train ++ df_test)
                               <$> surviving_keys (df_train ++ df_test))) = Some dtm →
         lda_fit_transform n_components dtm = Some components →
         length components = length (surviving_keys (df_train ++ df_test)) →
         Forall (λ row, length row = n_components) components →
         ∃ train test,
           UserItemLDA df_train df_test = Some (train, test)
           ∧ data train ++ data test
             = feature_row components (surviving_keys (df_train ++ df_test))
                 <$> (df_train ++ df_test))
  ∧ (1000000 ≤ Z.of_nat (length df_train + length df_test) →
     min_df_for (length (df_train ++ df_test)) = 2
     ∧ (count_vectorizer 2
          (join_tokens <$> (key_tokens (df_train ++ df_test)
                              <$> surviving_keys (df_train ++ df_test))) = None →
        UserItemLDA df_train df_test = None)
     ∧ ∀ dtm components,
         count_vectorizer 2
           (join_tokens <$> (key_tokens (df_train ++ df_test)
                               <$> surviving_keys (df_train ++ df_test))) = Some dtm →
         lda_fit_transform n_components dtm = Some components →
         length components = length (surviving_keys (df_train ++ df_test)) →
         Forall (λ row, length row = n_components) components →
         ∃ train test,
           UserItemLDA df_train df_test = Some (train, test)
           ∧ data train ++ data test
             = feature_row components (surviving_keys (df_train ++ df_test))
                 <$> (df_train ++ df_test)).
Proof.
  split; intros Hn.
  - assert (Hcut : min_df_for (length (df_train ++ df_test)) = 1).
    { unfold min_df_for. rewrite length_app. by rewrite decide_True by lia. }
    split; [done|]. split.
    + intros Hvec. apply UserItemLDA_vectorizer_fails. by rewrite Hcut.
    + intros dtm components Hvec Hlda Hrows Hcols. eexists _, _.
      split; [apply (UserItemLDA_closed _ _ dtm components); [by rewrite Hcut|done..]|].
      cbn [data]. by rewrite fmap_app.
  - assert (Hcut : min_df_for (length (df_train ++ df_test)) = 2).
    { unfold min_df_for. rewrite length_app. by rewrite decide_False by lia. }
    split; [done|]. split.
    + intros Hvec. apply UserItemLDA_vectorizer_fails. by rewrite Hcut.
    + intros dtm components Hvec Hlda Hrows Hcols. eexists _, _.
      split; [apply (UserItemLDA_closed _ _ dtm components); [by rewrite Hcut|done..]|].
      cbn [data]. by rewrite fmap_app.
Qed.

(** ** Further properties of the Document Builder *)

Lemma for_each_fail {St B} (I : St → Prop) (body : St → B → option St) x l :
  (∀ s y s', I s → body s y = Some s' → I s') →
  x ∈ l → (∀ s, I s → body s x = None) →
  ∀ s, I s → for_each body s l = None.
Proof.
  intros Hinv Hx Hfail. induction l as [|y l IH]; intros s Hs.
  - by apply elem_of_nil in Hx.
  - simpl. destruct (body s y) as [s'|] eqn:Hstep; [|done]. simpl.
    apply elem_of_cons in Hx as [-> | Hx]; [by rewrite Hfail in Hstep|].
    apply IH; [done|]. by eapply Hinv.
Qed.

Lemma field_is_Some col : is_Some (field col) ↔ col ∈ categorical_columns.
Proof.
  unfold field, categorical_columns. split.
  - intros Hs. repeat case_decide; subst; try (by repeat constructor); by destruct Hs.
  - rewrite !elem_of_cons, elem_of_nil. intros Hin.
    repeat case_decide; try by eexists.
    destruct Hin as [?|[?|[?|[?|[?|[]]]]]]; done.
Qed.

Lemma py_index_lt n i k : py_index n i = Some k → (k < n)%nat.
Proof. unfold py_index. repeat case_decide; intros; simplify_eq; lia. Qed.

Lemma py_index_wrap n i :
  - Z.of_nat n ≤ i < Z.of_nat n →
  py_index n i = Some (Z.to_nat (if decide (0 ≤ i) then i else Z.of_nat n + i)).
Proof.
  intros Hi. unfold py_index. destruct (decide (0 ≤ i)).
  - by rewrite decide_True by lia.
  - rewrite decide_False by lia. by rewrite decide_True by lia.
Qed.

Lemma py_index_out n i :
  i < - Z.of_nat n ∨ Z.of_nat n ≤ i → py_index n i = None.
Proof. intros Hi. unfold py_index. by rewrite !decide_False by lia. Qed.

Lemma append_at_length L p L' : append_at L p = Some L' → length L' = length L.
Proof.
  unfold append_at. destruct (py_index (length L) p.1); [|done].
  simpl. intros [= <-]. by rewrite length_alter.
Qed.

Lemma concat_alter_snoc (L : list (list Z)) k x :
  (k < length L)%nat → concat (alter (λ l, l ++ [x]) k L) ≡ₚ concat L ++ [x].
Proof.
  revert k. induction L as [|l L IH]; intros k Hk; simpl in *; [lia|].
  destruct k as [|k]; simpl.
  - rewrite <- !app_assoc. apply Permutation_app_head, Permutation_app_comm.
  - change (list_alter ?f k L) with (alter f k L).
    rewrite IH by lia. by rewrite app_assoc.
Qed.

Lemma for_each_append_at_tokens ps : ∀ L L' : list (list Z),
  for_each append_at L ps = Some L' → concat L' ≡ₚ concat L ++ ps.*2.
Proof.
  induction ps as [|p ps IH]; intros L L' Hrun; simpl in *.
  - injection Hrun as <-. by rewrite app_nil_r.
  - destruct (append_at L p) as [L1|] eqn:Hstep; [|done]. simpl in Hrun.
    rewrite (IH _ _ Hrun). unfold append_at in Hstep.
    destruct (py_index (length L) p.1) as [k|] eqn:Hk; [|done].
    simpl in Hstep. injection Hstep as <-.
    rewrite concat_alter_snoc by (by eapply py_index_lt).
    by rewrite <- app_assoc.
Qed.

Lemma append_at_wrap (L : list (list Z)) p :
  - Z.of_nat (length L) ≤ p.1 < Z.of_nat (length L) →
  append_at L p
  = Some (alter (λ l, l ++ [p.2])
            (Z.to_nat (if decide (0 ≤ p.1) then p.1 else Z.of_nat (length L) + p.1)) L).
Proof. intros Hp. unfold append_at. by rewrite py_index_wrap. Qed.

Lemma for_each_append_at_wrap ps : ∀ L : list (list Z),
  Forall (λ p : Z * Z, - Z.of_nat (length L) ≤ p.1 < Z.of_nat (length L)) ps →
  for_each append_at L ps
  = Some (imap (λ k l, l ++ (filter (λ p : Z * Z,
                 p.1 = Z.of_nat k ∨ p.1 = Z.of_nat k - Z.of_nat (length L)) ps).*2) L).
Proof.
  induction ps as [|p ps IH]; intros L Hps; simpl.
  - f_equal. apply list_eq; intros k. rewrite list_lookup_imap.
    destruct (L !! k); simpl; [|done]. by rewrite app_nil_r.
  - inversion Hps as [|? ? Hp Hps']; subst.
    rewrite append_at_wrap by done. simpl.
    set (i0 := Z.to_nat (if decide (0 ≤ p.1) then p.1 else Z.of_nat (length L) + p.1)).
    assert (Hi0 : ∀ k : nat, (k < length L)%nat →
              i0 = k ↔ p.1 = Z.of_nat k ∨ p.1 = Z.of_nat k - Z.of_nat (length L)).
    { intros k Hk. unfold i0. destruct (decide (0 ≤ p.1)); lia. }
    assert (Hlt : (i0 < length L)%nat).
    { unfold i0. destruct (decide (0 ≤ p.1)); lia. }
    clearbody i0.
    rewrite IH by (by rewrite length_alter). f_equal. rewrite length_alter.
    apply list_eq; intros k. rewrite !list_lookup_imap, list_lookup_alter.
    rewrite filter_cons.
    destruct (L !! k) as [l|] eqn:Hl.
    + pose proof (Hi0 k (lookup_lt_Some _ _ _ Hl)) as Hiff.
      destruct (decide (i0 = k)) as [-> | Hne].
      * rewrite Hl. simpl. rewrite decide_True by (by apply Hiff).
        rewrite fmap_cons. simpl. by rewrite <- app_assoc.
      * simpl. rewrite decide_False; [done|]. intros Hor. by apply Hne, Hiff.
    + destruct (decide (i0 = k)) as [-> | Hne]; [|done].
      apply lookup_ge_None in Hl. lia.
Qed.

(** X1. [create_word_list] raises on an empty dataset (pandas' [max] of
    an empty column is NaN) and on a column name outside the schema. *)
Theorem create_word_list_errors df col1 col2 :
  df = [] ∨ col1 ∉ categorical_columns ∨ col2 ∉ categorical_columns →
  create_word_list df col1 col2 = None.
Proof.
  intros Hbad. unfold create_word_list, column.
  destruct (field col1) as [f1|] eqn:Hf1; [|done]. simpl.
  destruct df as [|r df]; [done|]. simpl.
  destruct (field col2) as [f2|] eqn:Hf2; [|done].
  destruct Hbad as [? | [Hc | Hc]]; [done | |]; exfalso; apply Hc, field_is_Some; eauto.
Qed.

(** X2. Negative col1 values are not rejected: with largest value [m]
    below the maximum of the column's dtype and every value at least
    [-(m+1)], the builder still returns [m+1] documents, and document [k] also collects the rows whose col1 value is
    [k - (m+1)] (Python indexing from the end), in row order. *)
Theorem create_word_list_wraps df col1 col2 c1 c2 m :
  column df col1 = Some c1 →
  column df col2 = Some c2 →
  m ∈ c1 →
  Forall (λ v, - (m + 1) ≤ v ≤ m) c1 →
  m < dtype_max (column_dtype col1) →
  ∃ docs,
    create_word_list df col1 col2 = Some docs
    ∧ length docs = Z.to_nat (m + 1)
    ∧ ∀ k : nat, Z.of_nat k ≤ m →
        docs !! k = Some (join_tokens
          (filter (λ p : Z * Z, p.1 = Z.of_nat k ∨ p.1 = Z.of_nat k - (m + 1)) (zip c1 c2)).*2).
Proof.
  intros Hc1 Hc2 Hm Hrange Hfit.
  assert (Hm0 : 0 ≤ m).
  { rewrite Forall_forall in Hrange. specialize (Hrange m Hm). lia. }
  unfold create_word_list. rewrite Hc1. simpl.
  rewrite (series_max_spec c1 m); [|done|].
  2:{ eapply Forall_impl; [exact Hrange|]. intros v Hv. simpl in Hv. lia. }
  simpl. rewrite scalar_succ_below by done. rewrite Hc2. simpl.
  rewrite for_each_append_at_wrap.
  2:{ rewrite length_replicate. apply Forall_forall. intros [v1 v2] Hin.
      apply elem_of_zip_l in Hin. simpl in *.
      rewrite Forall_forall in Hrange. specialize (Hrange _ Hin). lia. }
  simpl. eexists. split; [done|]. split.
  - by rewrite length_fmap, length_imap, length_replicate.
  - intros k Hk. rewrite list_lookup_fmap, list_lookup_imap.
    rewrite lookup_replicate_2 by lia. simpl.
    rewrite length_replicate, Z2Nat.id by lia. done.
Qed.

(** X3. A col1 value below [-(m+1)], [m] being the column's largest
    value, makes the builder raise ([IndexError]); in particular a column
    with only negative values always raises. *)
Theorem create_word_list_index_error df col1 col2 c1 m v :
  column df col1 = Some c1 →
  m ∈ c1 →
  Forall (λ v, v ≤ m) c1 →
  v ∈ c1 →
  v + (m + 1) < 0 →
  create_word_list df col1 col2 = None.
Proof.
  intros Hc1 Hm Hle Hv Hlow.
  assert (Hvm : v ≤ m). { rewrite Forall_forall in Hle. by apply Hle. }
  unfold create_word_list. rewrite Hc1. simpl.
  rewrite (series_max_spec c1 m) by done. simpl.
  destruct (column df col2) as [c2|] eqn:Hc2; [|done]. simpl.
  set (size := Z.to_nat (scalar_succ (column_dtype col1) m)).
  assert (Hsize : v < - Z.of_nat size ∨ Z.of_nat size ≤ v).
  { unfold size, scalar_succ. pose proof (dtype_min_nonpos (column_dtype col1)).
    case_decide; lia. }
  clearbody size.
  unfold column in Hc1, Hc2.
  destruct (field col1) as [f1|]; [|done]. destruct (field col2) as [f2|]; [|done].
  simpl in Hc1, Hc2. injection Hc1 as <-. injection Hc2 as <-.
  apply list_elem_of_fmap in Hv as (r & -> & Hr).
  rewrite (for_each_fail (λ L : list (list Z), length L = size)
             append_at (f1 r, f2 r)); [done| | | |].
  - intros L p L' HL Hstep. by rewrite (append_at_length _ _ _ Hstep).
  - rewrite zip_with_fmap_l, zip_with_fmap_r, zip_with_diag.
    apply list_elem_of_fmap. by exists r.
  - intros L HL. unfold append_at. simpl. rewrite HL, py_index_out; done.
  - by rewrite length_replicate.
Qed.

(** X4. Whenever the builder returns, no token was lost or invented: the
    documents are the space-joined forms of token lists that together are a
    rearrangement of the col2 column. *)
Theorem create_word_list_keeps_tokens df col1 col2 c2 docs :
  column df col2 = Some c2 →
  create_word_list df col1 col2 = Some docs →
  ∃ lists, docs = join_tokens <$> lists ∧ concat lists ≡ₚ c2.
Proof.
  intros Hc2 Hrun. unfold create_word_list in Hrun.
  destruct (column df col1) as [c1|] eqn:Hc1; [|done]. simpl in Hrun.
  destruct (series_max c1) as [m|]; [|done]. simpl in Hrun.
  rewrite Hc2 in Hrun. simpl in Hrun.
  destruct (for_each append_at _ _) as [lists|] eqn:Hloop; [|done].
  simpl in Hrun. injection Hrun as <-. exists lists. split; [done|].
  rewrite (for_each_append_at_tokens _ _ _ Hloop).
  assert (Hnil : ∀ n, concat (replicate n (@nil Z)) = []).
  { intros n. induction n as [|n IH]; [done|]. simpl. exact IH. }
  rewrite Hnil. simpl. rewrite snd_zip; [done|].
  unfold column in Hc1, Hc2.
  destruct (field col1); [|done]. destruct (field col2); [|done].
  simpl in *. simplify_eq. by rewrite !length_fmap.
Qed.

(** ** Further properties of the Broadcast/Assembler *)

Lemma elem_of_enumerate {A} (l : list A) j x : l !! j = Some x → (j, x) ∈ enumerate l.
Proof.
  intros Hj. apply list_elem_of_lookup. exists j. unfold enumerate.
  apply lookup_zip_with_Some. exists j, x. split; [done|]. split; [|done].
  apply lookup_seq. split; [done|]. by eapply lookup_lt_Some.
Qed.

Lemma snd_enumerate {A} (l : list A) : (enumerate l).*2 = l.
Proof. unfold enumerate. apply snd_zip. by rewrite length_seq. Qed.

Lemma py_getitem_wrap {A} (l : list A) i :
  - Z.of_nat (length l) ≤ i < Z.of_nat (length l) →
  ∃ x, py_getitem l i = Some x ∧ x ∈ l.
Proof.
  intros Hi. unfold py_getitem. rewrite py_index_wrap by done. simpl.
  destruct (lookup_lt_is_Some_2 l
              (Z.to_nat (if decide (0 ≤ i) then i else Z.of_nat (length l) + i)))
    as [x Hx]; [destruct (decide (0 ≤ i)); lia|].
  exists x. split; [done|]. by eapply list_elem_of_lookup_2.
Qed.

Lemma py_getitem_out {A} (l : list A) i :
  i < - Z.of_nat (length l) ∨ Z.of_nat (length l) ≤ i → py_getitem l i = None.
Proof. intros Hi. unfold py_getitem. by rewrite py_index_out. Qed.

Lemma check_wrapped_ids_sound df cs1 vs :
  check_wrapped_ids df cs1 vs = true → wrapped_ids df cs1 vs.
Proof.
  unfold check_wrapped_ids. rewrite forallb_forall. intros Hall i col1 lv H1 H2.
  specialize (Hall (col1, lv)). simpl in Hall.
  rewrite andb_true_iff in Hall. destruct Hall as [Hw Hc].
  { apply list_elem_of_In, list_elem_of_lookup. exists i.
    apply lookup_zip_with_Some. by exists col1, lv. }
  split.
  - apply Forall_forall. intros row Hrow. rewrite forallb_forall in Hw.
    apply list_elem_of_In, Hw in Hrow. by apply bool_decide_eq_true in Hrow.
  - destruct (column df col1) as [c|]; [|done]. exists c. split; [done|].
    apply Forall_forall. intros v Hv. rewrite forallb_forall in Hc.
    apply list_elem_of_In, Hc in Hv. by apply bool_decide_eq_true in Hv.
Qed.

Lemma wrapped_ids_ok df cs1 cs2 vs :
  wrapped_ids df cs1 vs → Forall (triple_ok df) (zip3 cs1 cs2 vs).
Proof.
  intros Hwrap. apply Forall_lookup. intros i [[col1 col2] lv] Hi.
  apply lookup_zip3 in Hi as (H1 & H2 & H3).
  destruct (Hwrap i col1 lv H1 H3) as (Hw & c & Hc & Hrange).
  unfold column in Hc. destruct (field col1) as [f|] eqn:Hf; [|done].
  simpl in Hc. injection Hc as <-.
  exists f. split; [done|]. simpl.
  rewrite Forall_fmap in Hrange. eapply Forall_impl; [exact Hrange|].
  intros r Hr. simpl in Hr.
  destruct (py_getitem_wrap lv (f r) Hr) as (v & Hv & Hin).
  exists v. split; [done|]. rewrite Forall_forall in Hw. by apply Hw.
Qed.

Lemma get_feature_step_columns df st item st' :
  get_feature_step df st item = Some st' →
  st'.2 = st.2 ++ triple_columns item.2.
Proof.
  destruct st as [features cols], item as [i [[col1 col2] lv]].
  unfold get_feature_step. destruct (column df col1) as [c|]; [|done]. simpl.
  destruct (for_each _ _ _) as [features'|]; [|done]. simpl.
  by intros [= <-].
Qed.

Lemma get_feature_loop_columns df items : ∀ st st',
  for_each (get_feature_step df) st items = Some st' →
  st'.2 = st.2 ++ concat (triple_columns <$> items.*2).
Proof.
  induction items as [|item items IH]; intros st st' Hrun; simpl in *.
  - injection Hrun as <-. by rewrite app_nil_r.
  - destruct (get_feature_step df st item) as [st1|] eqn:Hstep; [|done].
    simpl in Hrun. rewrite (IH _ _ Hrun), (get_feature_step_columns _ _ _ _ Hstep).
    by rewrite <- app_assoc.
Qed.

Lemma length_triple_columns t : length (triple_columns t) = width.
Proof. unfold triple_columns. by rewrite length_fmap, length_seq. Qed.

Lemma get_feature_success_columns path cs1 cs2 vs frame :
  get_feature path cs1 cs2 vs = Some frame →
  columns frame = concat (triple_columns <$> zip3 cs1 cs2 vs)
  ∧ length (columns frame) = (length cs1 * width)%nat.
Proof.
  unfold get_feature. destruct (read_feather path) as [df|]; [|done]. simpl.
  destruct (for_each _ _ _) as [st|] eqn:Hloop; [|done]. simpl.
  apply get_feature_loop_columns in Hloop. simpl in Hloop.
  rewrite snd_enumerate in Hloop.
  unfold DataFrame_of. case_decide as Hlen; [|done].
  intros [= <-]. simpl. by rewrite <- Hloop.
Qed.

Lemma get_feature_step_fails df st i col1 col2 lv :
  (column df col1 = None
   ∨ ∃ c val, column df col1 = Some c ∧ val ∈ c ∧ py_getitem lv val = None) →
  get_feature_step df st (i, (col1, col2, lv)) = None.
Proof.
  destruct st as [features cols]. unfold get_feature_step.
  intros [Hc | (c & val & Hc & Hval & Hout)]; rewrite Hc; [done|]. simpl.
  apply list_elem_of_lookup in Hval as [j Hj].
  rewrite (for_each_fail (λ _, True) _ (j, val)); [done|done| | |done].
  - by apply elem_of_enumerate.
  - intros s _. unfold assign_slice. by rewrite Hout.
Qed.

Lemma get_feature_fails path df cs1 cs2 vs i col1 col2 lv :
  read_feather path = Some df →
  cs1 !! i = Some col1 → cs2 !! i = Some col2 → vs !! i = Some lv →
  (column df col1 = None
   ∨ ∃ c val, column df col1 = Some c ∧ val ∈ c ∧ py_getitem lv val = None) →
  get_feature path cs1 cs2 vs = None.
Proof.
  intros Hread H1 H2 H3 Hbad. unfold get_feature. rewrite Hread. simpl.
  rewrite (for_each_fail (λ _, True) _ (i, (col1, col2, lv))); [done|done| | |done].
  - apply elem_of_enumerate. by apply lookup_zip3.
  - intros st _. by apply get_feature_step_fails.
Qed.

(** X5. Negative ids are not rejected by the assembler either: a value
    in [-n, n), [n] being the number of latent rows, selects the row that
    Python indexing selects (counting from the end when negative), and the
    table is still returned. *)
Theorem get_feature_broadcast_wraps path df cs1 cs2 vs :
  read_feather path = Some df →
  length cs2 = length cs1 → length vs = length cs1 →
  wrapped_ids df cs1 vs →
  ∃ frame,
    get_feature path cs1 cs2 vs = Some frame
    ∧ ∀ i r col1 lv c val frow,
        cs1 !! i = Some col1 → vs !! i = Some lv →
        column df col1 = Some c → c !! r = Some val →
        data frame !! r = Some frow →
        py_getitem lv val = Some (take width (drop (i * width) frow)).
Proof.
  intros Hread H2 H3 Hwrap.
  pose proof (wrapped_ids_ok df cs1 cs2 vs Hwrap) as Hok.
  eexists. split; [by apply get_feature_closed|]. cbn [data].
  intros i r col1 lv c val frow Hc1 Hlv Hc Hval Hfrow.
  destruct (lookup_lt_is_Some_2 cs2 i) as [col2 Hc2].
  { rewrite H2. by eapply lookup_lt_Some. }
  assert (Ht : zip3 cs1 cs2 vs !! i = Some (col1, col2, lv)) by by apply lookup_zip3.
  unfold column in Hc. destruct (field col1) as [f|] eqn:Hf; [|done].
  simpl in Hc. injection Hc as <-.
  apply list_lookup_fmap_Some in Hval as (row & -> & Hrow).
  rewrite list_lookup_fmap, Hrow in Hfrow. injection Hfrow as <-.
  assert (Hin : row ∈ df) by by eapply list_elem_of_lookup_2.
  rewrite (slices_lookup df _ i (col1, col2, lv)) by done.
  rewrite Forall_lookup in Hok. destruct (Hok _ _ Ht) as (f' & Hf' & Hall).
  simpl in Hf'. rewrite Hf in Hf'. injection Hf' as <-.
  rewrite Forall_forall in Hall. destruct (Hall row Hin) as (v & Hv & _).
  simpl in Hv. unfold latent_row. simpl. rewrite Hf. simpl. by rewrite Hv.
Qed.

(** X6. The returned table is rectangular: one row per data row, and
    every row has exactly as many entries as there are column names,
    [len(cs1) * width]. *)
Theorem get_feature_rectangular path df cs1 cs2 vs :
  read_feather path = Some df →
  length cs2 = length cs1 → length vs = length cs1 →
  wrapped_ids df cs1 vs →
  ∃ frame,
    get_feature path cs1 cs2 vs = Some frame
    ∧ length (data frame) = length df
    ∧ length (columns frame) = (length cs1 * width)%nat
    ∧ Forall (λ frow, length frow = length (columns frame)) (data frame).
Proof.
  intros Hread H2 H3 Hwrap.
  pose proof (wrapped_ids_ok df cs1 cs2 vs Hwrap) as Hok.
  pose proof (get_feature_closed path df cs1 cs2 vs Hread H2 H3 Hok) as Hrun.
  destruct (get_feature_success_columns _ _ _ _ _ Hrun) as [_ Hcols].
  eexists. split; [exact Hrun|]. cbn [data] in *.
  split; [by rewrite length_fmap|]. split; [done|].
  rewrite Hcols. apply Forall_fmap, Forall_forall. intros row Hrow. simpl.
  rewrite (slices_length df) by done.
  unfold zip3. rewrite !length_zip_with. f_equal. lia.
Qed.

(** X7. The second column names only label the table: replacing [cs2] by
    any other list of the same length leaves the table's data unchanged. *)
Theorem get_feature_data_ignores_cs2 path df cs1 cs2 cs2' vs :
  read_feather path = Some df →
  length cs2 = length cs1 → length cs2' = length cs1 → length vs = length cs1 →
  wrapped_ids df cs1 vs →
  ∃ frame frame',
    get_feature path cs1 cs2 vs = Some frame
    ∧ get_feature path cs1 cs2' vs = Some frame'
    ∧ data frame = data frame'.
Proof.
  intros Hread H2 H2' H3 Hwrap.
  eexists _, _.
  split; [apply get_feature_closed; [done..|by apply wrapped_ids_ok]|].
  split; [apply get_feature_closed; [done..|by apply wrapped_ids_ok]|].
  cbn [data]. apply list_fmap_ext. intros _ row _. unfold slices. f_equal.
  apply list_eq. intros i. unfold zip3. rewrite !list_lookup_fmap, !lookup_zip_with.
  destruct (cs1 !! i) as [col1|] eqn:Hc1; [|done]. simpl.
  destruct (lookup_lt_is_Some_2 cs2 i) as [col2 Hc2].
  { rewrite H2. by eapply lookup_lt_Some. }
  destruct (lookup_lt_is_Some_2 cs2' i) as [col2' Hc2'].
  { rewrite H2'. by eapply lookup_lt_Some. }
  rewrite Hc2, Hc2'. simpl. by destruct (vs !! i).
Qed.

(** X8. When fewer second names or fewer matrices than first names are
    passed (and [width] is positive), no table comes back: the loop fills
    too few names and [pd.DataFrame] rejects the shape. *)
Theorem get_feature_length_mismatch path cs1 cs2 vs :
  (length cs2 < length cs1 ∨ length vs < length cs1)%nat →
  (0 < width)%nat →
  get_feature path cs1 cs2 vs = None.
Proof.
  intros Hshort Hw. destruct (get_feature path cs1 cs2 vs) as [frame|] eqn:Hrun; [|done].
  destruct (get_feature_success_columns _ _ _ _ _ Hrun) as [Hcols Hlen].
  rewrite Hcols, (length_concat_blocks width), length_fmap in Hlen.
  2:{ apply Forall_fmap, Forall_true. intros t. apply length_triple_columns. }
  unfold zip3 in Hlen. rewrite !length_zip_with in Hlen. nia.
Qed.

(** X9. An id outside [-n, n), [n] being the number of rows of its latent
    matrix, is not clamped or skipped: the whole call raises. *)
Theorem get_feature_index_error path df cs1 cs2 vs i col1 col2 lv c val :
  read_feather path = Some df →
  cs1 !! i = Some col1 → cs2 !! i = Some col2 → vs !! i = Some lv →
  column df col1 = Some c → val ∈ c →
  val < - Z.of_nat (length lv) ∨ Z.of_nat (length lv) ≤ val →
  get_feature path cs1 cs2 vs = None.
Proof.
  intros Hread H1 H2 H3 Hc Hval Hout.
  apply (get_feature_fails path df cs1 cs2 vs i col1 col2 lv); [done..|].
  right. exists c, val. split; [done|]. split; [done|]. by apply py_getitem_out.
Qed.

(** X10. A first column name outside the schema makes the call raise
    ([KeyError]) as soon as its triple is reached. *)
Theorem get_feature_key_error path df cs1 cs2 vs i col1 col2 lv :
  read_feather path = Some df →
  cs1 !! i = Some col1 → cs2 !! i = Some col2 → vs !! i = Some lv →
  col1 ∉ categorical_columns →
  get_feature path cs1 cs2 vs = None.
Proof.
  intros Hread H1 H2 H3 Hcol.
  apply (get_feature_fails path df cs1 cs2 vs i col1 col2 lv); [done..|].
  left. unfold column. destruct (field col1) as [f|] eqn:Hf; [|done].
  exfalso. apply Hcol, field_is_Some. by exists f.
Qed.

(** ** Further properties of the pairwise pipeline *)




(** ** Further properties of the composite-key pipeline *)

Lemma index_of_is_Some k ks : is_Some (index_of k ks) ↔ k ∈ ks.
Proof.
  destruct (index_of k ks) as [i|] eqn:Hi.
  - split; [|by eexists]. intros _. apply index_of_lookup in Hi.
    by eapply list_elem_of_lookup_2.
  - apply index_of_None in Hi. split; [by intros [? ?] | done].
Qed.

(** X14. The key builder's map and documents fit together: there is one
    document per surviving key, every document has at least [threshold]
    tokens, the document stored at a key's id holds exactly the [app]
    values of the rows packed to that key, no two keys share an id, and a
    row's key is in the map exactly when it has at least [threshold] rows. *)
Theorem build_keys_lookup df :
  ∃ values mask_to_id,
    build_keys df = Some (values, mask_to_id)
    ∧ length values = length mask_to_id
    ∧ Forall (λ toks, (threshold ≤ length toks)%nat) values
    ∧ (∀ k mask_id, dict_get mask_to_id k = Some mask_id →
         values !! mask_id = Some (key_tokens df k)
         ∧ ∀ k', dict_get mask_to_id k' = Some mask_id → k' = k)
    ∧ (∀ row, row ∈ df →
         is_Some (dict_get mask_to_id (pack row))
         ↔ (threshold ≤ length (key_tokens df (pack row)))%nat).
Proof.
  eexists _, _. split; [apply build_keys_closed|].
  split; [by rewrite length_fmap, length_numbered|]. split; [|split].
  - apply Forall_fmap, Forall_forall. intros k Hk. simpl.
    by apply surviving_keys_elem in Hk as [_ Hk].
  - intros k mask_id Hk. rewrite dict_get_numbered in Hk.
    apply index_of_lookup in Hk. split.
    + by rewrite list_lookup_fmap, Hk.
    + intros k' Hk'. rewrite dict_get_numbered in Hk'.
      apply index_of_lookup in Hk'. congruence.
  - intros row Hrow. rewrite dict_get_numbered, index_of_is_Some, surviving_keys_elem.
    split; [by intros [_ ?]|]. intros Hge. split; [|done].
    apply list_elem_of_fmap. by exists row.
Qed.

Lemma feature_row_length components kept row :
  length components = length kept →
  Forall (λ row, length row = n_components) components →
  length (feature_row components kept row) = n_components.
Proof.
  intros Hrows Hcols. unfold feature_row.
  destruct (index_of (pack row) kept) as [mask_id|] eqn:Hid.
  - apply index_of_lookup, lookup_lt_Some in Hid.
    destruct (lookup_lt_is_Some_2 components mask_id) as [v Hv]; [lia|].
    rewrite Hv. simpl. rewrite length_fmap. rewrite Forall_forall in Hcols.
    apply Hcols. by eapply list_elem_of_lookup_2.
  - by rewrite length_replicate.
Qed.

(** X15. The composite-key tables are rectangular and share their
    labels: one row per train row and per test row, every row with
    [n_components] (30) entries, and both tables with the 30 column names
    [name_0], ..., [name_29]. *)
Theorem UserItemLDA_shape df_train df_test dtm components :
  count_vectorizer (min_df_for (length (df_train ++ df_test)))
    (join_tokens <$> (key_tokens (df_train ++ df_test)
                        <$> surviving_keys (df_train ++ df_test))) = Some dtm →
  lda_fit_transform n_components dtm = Some components →
  length components = length (surviving_keys (df_train ++ df_test)) →
  Forall (λ row, length row = n_components) components →
  ∃ train test,
    UserItemLDA df_train df_test = Some (train, test)
    ∧ Forall (λ frow, length frow = n_components) (data train ++ data test)
    ∧ columns train = columns test
    ∧ length (columns train) = n_components
    ∧ ∀ i, (i < n_components)%nat →
        columns train !! i = Some (name +:+ "_" +:+ pretty i).
Proof.
  intros Hvec Hlda Hrows Hcols.
  eexists _, _. split; [by eapply UserItemLDA_closed|]. cbn [data columns].
  split; [|split; [done|split]].
  - rewrite <- fmap_app. apply Forall_fmap, Forall_true. intros row. simpl.
    by apply feature_row_length.
  - unfold feature_columns. by rewrite length_fmap, length_seq.
  - intros i Hi. unfold feature_columns. by rewrite list_lookup_fmap, lookup_seq_lt.
Qed.

Lemma fill_loop_empty components df features :
  length features = length df →
  for_each (fill components []) features (enumerate df) = Some features.
Proof.
  intros Hlen.
  rewrite (for_each_enumerate_rows _ (λ row _, row) (λ _ _, True)).
  - f_equal. revert features Hlen. induction df as [|r df IH]; intros [|f fs] Hlen;
      simpl in *; try done. rewrite IH by lia. done.
  - intros fs j r row Hrow _. unfold fill. simpl. by rewrite list_insert_id.
  - revert features Hlen. induction df as [|r df IH]; intros [|f fs] Hlen;
      simpl in *; try done; constructor; [done|]. apply IH. lia.
Qed.

(** X16. When no key has [threshold] rows (for instance on fewer than
    three rows), nothing survives the filter: the vectorizer is handed an
    empty corpus, and if it and the factorizer answer at all, every row of
    both tables is the zero vector. *)
Theorem UserItemLDA_nothing_survives df_train df_test :
  (∀ row, row ∈ df_train ++ df_test →
     (length (key_tokens (df_train ++ df_test) (pack row)) < threshold)%nat) →
  build_keys (df_train ++ df_test) = Some ([], [])
  ∧ ∀ dtm components,
      count_vectorizer (min_df_for (length (df_train ++ df_test))) [] = Some dtm →
      lda_fit_transform n_components dtm = Some components →
      UserItemLDA df_train df_test
      = Some (mkFrame (replicate (length df_train) (replicate n_components zero32))
                (feature_columns n_components),
              mkFrame (replicate (length df_test) (replicate n_components zero32))
                (feature_columns n_components)).
Proof.
  intros Hfew.
  assert (Hnone : surviving_keys (df_train ++ df_test) = []).
  { destruct (surviving_keys (df_train ++ df_test)) as [|k ks] eqn:Hks; [done|].
    assert (Hk : k ∈ surviving_keys (df_train ++ df_test)) by (rewrite Hks; left).
    apply surviving_keys_elem in Hk as [Hin Hge].
    apply list_elem_of_fmap in Hin as (row & -> & Hrow).
    specialize (Hfew row Hrow). lia. }
  assert (Hkeys : build_keys (df_train ++ df_test) = Some ([], [])).
  { by rewrite build_keys_closed, Hnone. }
  split; [done|]. intros dtm components Hvec Hlda.
  unfold UserItemLDA. rewrite Hkeys. simpl. rewrite Hvec. simpl. rewrite Hlda. simpl.
  rewrite fill_loop_empty by (by rewrite length_replicate). simpl.
  rewrite length_app, take_replicate_add, drop_replicate_add. done.
Qed.

(** ** Further properties of the single pipelines *)

(** X17. The single pipelines cut one fitted matrix in two and lose
    nothing: the two tables put back together are the whole matrix (as
    float32), they share their 30 column names, and when the fit returns
    one row per input row the tables have [len(train)] and [len(test)] rows. *)
Theorem Single_split_lossless :
  (∀ df_train df_test features,
     onehot_svd n_components (key_values (df_train ++ df_test)) = Some features →
     ∃ train test,
       SinglePCACount df_train df_test = Some (train, test)
       ∧ data train ++ data test = astype features
       ∧ columns train = columns test
       ∧ (length features = length (df_train ++ df_test) →
          length (data train) = length df_train ∧ length (data test) = length df_test))
  ∧ (∀ df_train df_test features,
     onehot_tfidf_svd n_components (key_values (df_train ++ df_test)) = Some features →
     ∃ train test,
       SinglePCATfIdf df_train df_test = Some (train, test)
       ∧ data train ++ data test = astype features
       ∧ columns train = columns test
       ∧ (length features = length (df_train ++ df_test) →
          length (data train) = length df_train ∧ length (data test) = length df_test)).
Proof.
  split; intros df_train df_test features Hfit; eexists _, _.
  - split; [exact (Single_closed onehot_svd _ _ _ Hfit)|]. cbn [data columns].
    split; [apply take_drop|]. split; [done|]. intros Hlen.
    rewrite length_take, length_drop. unfold astype. rewrite length_fmap, Hlen, length_app. lia.
  - split; [exact (Single_closed onehot_tfidf_svd _ _ _ Hfit)|]. cbn [data columns].
    split; [apply take_drop|]. split; [done|]. intros Hlen.
    rewrite length_take, length_drop. unfold astype. rewrite length_fmap, Hlen, length_app. lia.
Qed.

End Model.

(** ** Train features and the test split, once more *)


(** ** The theorems at work on small inputs *)



Lemma get_feature_broadcast_witness :
  ∃ frame,
    get_feature 0 "f" 2 (toy_store toy_train toy_test) "train"
      ["ip"; "app"] ["app"; "ip"] [[[1; 1]; [2; 2]]; [[1; 1]; [2; 2]; [3; 3]; [4; 4]]]
    = Some frame
    ∧ ∀ frow, data frame !! 2%nat = Some frow → Some [4; 4] = Some (take 2 (drop (1 * 2) frow)).
Proof.
  destruct (get_feature_broadcast 0 "f" 2 (toy_store toy_train toy_test) "train" toy_train
              ["ip"; "app"] ["app"; "ip"] [[[1; 1]; [2; 2]]; [[1; 1]; [2; 2]; [3; 3]; [4; 4]]])
    as (frame & Hrun & _ & Hrows).
  - reflexivity.
  - reflexivity.
  - reflexivity.
  - apply check_dense_ids_sound. reflexivity.
  - exists frame. split; [exact Hrun|]. intros frow Hfrow.
    apply (Hrows 1%nat 2%nat "app" [[1; 1]; [2; 2]; [3; 3]; [4; 4]] [1; 2; 3] 3 frow);
      [reflexivity | reflexivity | reflexivity | reflexivity | exact Hfrow].
Defined.

Lemma get_feature_column_names_witness :
  ∃ frame,
    get_feature 0 "f" 2 (toy_store toy_train toy_test) "test"
      ["ip"; "app"] ["app"; "ip"] [[[1; 1]; [2; 2]]; [[1; 1]; [2; 2]; [3; 3]; [4; 4]]]
    = Some frame
    ∧ length (columns frame) = 4%nat
    ∧ columns frame !! 3%nat = Some "f-app-ip-1".
Proof.
  destruct (get_feature_column_names 0 "f" 2 (toy_store toy_train toy_test) "test" toy_test
              ["ip"; "app"] ["app"; "ip"] [[[1; 1]; [2; 2]]; [[1; 1]; [2; 2]; [3; 3]; [4; 4]]])
    as (frame & Hrun & Hlen & Hnames).
  - reflexivity.
  - reflexivity.
  - reflexivity.
  - apply check_dense_ids_sound. reflexivity.
  - exists frame. split; [exact Hrun|]. split; [exact Hlen|].
    apply (Hnames 1%nat 1%nat "app" "ip"); [reflexivity | reflexivity | lia].
Defined.

Lemma UserItemLDA_threshold_filter_witness :
  ∃ train test,
    UserItemLDA (@id Z) 0 "f" toy_count_vectorizer toy_factorizer toy_key_train toy_key_test
    = Some (train, test)
    ∧ (∀ frow, (data train ++ data test) !! 2%nat = Some frow → frow = replicate 30 0)
    ∧ (∀ frow, (data train ++ data test) !! 6%nat = Some frow → frow = replicate 30 2).
Proof.
  destruct (UserItemLDA_threshold_filter (@id Z) 0 "f" toy_count_vectorizer toy_factorizer
              toy_key_train toy_key_test ["1 2 3"; "1 1 1"]
              [replicate 30 1; replicate 30 2])
    as (_ & _ & _ & train & test & Hrun & _ & _ & Hrows).
  - vm_compute; reflexivity.
  - vm_compute; reflexivity.
  - vm_compute; reflexivity.
  - repeat constructor.
  - exists train, test. split; [exact Hrun|]. split.
    + intros frow Hfrow.
      destruct (Hrows 2%nat (mkRow 5 5 5 5 5) frow eq_refl Hfrow) as [Hzero _].
      apply Hzero. vm_compute. lia.
    + intros frow Hfrow.
      destruct (Hrows 6%nat (mkRow 1 1 1 1 1) frow eq_refl Hfrow) as [_ Hkept].
      assert (Hid : surviving_keys (toy_key_train ++ toy_key_test) !! 1%nat
                    = Some (pack (mkRow 1 1 1 1 1))) by (vm_compute; reflexivity).
      destruct (Hkept 1%nat Hid) as (v & Hv & ->).
      injection Hv as <-. reflexivity.
Defined.

(** C3, counterexample. [collide_channel] has [channel = 1024 ≥ 2^10]; its
    key tuple differs from that of [collide_os], yet both pack to the same
    key.  The pipeline raises nothing: it returns its tables, in which the
    two tuples were merged into one document and share one embedding. *)
Lemma UserItemLDA_overflow_accepted :
  overflows collide_channel
  ∧ key_tuple collide_os ≠ key_tuple collide_channel
  ∧ pack collide_os = pack collide_channel
  ∧ build_keys [collide_os; collide_os; collide_channel]
    = Some ([[7; 7; 8]], [(1024, 0%nat)])
  ∧ UserItemLDA (@id Z) 0 "f" toy_count_vectorizer toy_factorizer
      [collide_os; collide_os; collide_channel] []
    = Some (mkFrame [replicate 30 1; replicate 30 1; replicate 30 1] (feature_columns "f" 30),
            mkFrame [] (feature_columns "f" 30)).
Proof.
  split; [left; vm_compute; discriminate|]. split; [discriminate|].
  split; [vm_compute; reflexivity|]. split; vm_compute; reflexivity.
Qed.

Lemma UserItemLDA_packing_unchecked_witness :
  (∃ train test,
     UserItemLDA (@id Z) 0 "f" toy_count_vectorizer toy_factorizer
       [collide_os; collide_os; collide_channel] [] = Some (train, test)
     ∧ ∀ frow1 frow2,
         (data train ++ data test) !! 0%nat = Some frow1 →
         (data train ++ data test) !! 2%nat = Some frow2 → frow1 = frow2)
  ∧ (pack (mkRow 3 0 2 1 0) = pack (mkRow 3 9 2 1 0) →
     key_tuple (mkRow 3 0 2 1 0) = key_tuple (mkRow 3 9 2 1 0)).
Proof.
  destruct (UserItemLDA_packing_unchecked (@id Z) 0 "f" toy_count_vectorizer toy_factorizer
              [collide_os; collide_os; collide_channel] [] ["7 7 8"] [replicate 30 1])
    as [(train & test & Hrun & Hsame) Hinj].
  - vm_compute; reflexivity.
  - vm_compute; reflexivity.
  - vm_compute; reflexivity.
  - repeat constructor.
  - split.
    + exists train, test. split; [exact Hrun|]. intros frow1 frow2 H1 H2.
      assert (Hpack : pack collide_os = pack collide_channel) by (vm_compute; reflexivity).
      exact (Hsame 0%nat 2%nat collide_os collide_channel frow1 frow2
               eq_refl eq_refl Hpack H1 H2).
    + apply Hinj; unfold in_width; simpl; lia.
Defined.


Lemma UserItemLDA_min_df_cutoff_witness :
  (∃ train test,
     UserItemLDA (@id Z) 0 "f" (only_min_df 1) toy_factorizer toy_key_train toy_key_test
     = Some (train, test))
  ∧ UserItemLDA (@id Z) 0 "f" (only_min_df 2) toy_factorizer toy_key_train toy_key_test = None
  ∧ UserItemLDA (@id Z) 0 "f" (only_min_df 1) toy_factorizer
      (replicate (Z.to_nat 1000000) (mkRow 0 1 0 0 0)) [] = None.
Proof.
  split; [|split].
  - destruct (UserItemLDA_min_df_cutoff (@id Z) 0 "f" (only_min_df 1) toy_factorizer
                toy_key_train toy_key_test) as [Hsmall _].
    destruct Hsmall as (_ & _ & Hrun); [simpl; lia|].
    destruct (Hrun ["1 2 3"; "1 1 1"] [replicate 30 1; replicate 30 2])
      as (train & test & Hres & _).
    + vm_compute; reflexivity.
    + vm_compute; reflexivity.
    + vm_compute; reflexivity.
    + repeat constructor.
    + by exists train, test.
  - destruct (UserItemLDA_min_df_cutoff (@id Z) 0 "f" (only_min_df 2) toy_factorizer
                toy_key_train toy_key_test) as [Hsmall _].
    destruct Hsmall as (_ & Hfail & _); [simpl; lia|].
    apply Hfail. reflexivity.
  - destruct (UserItemLDA_min_df_cutoff (@id Z) 0 "f" (only_min_df 1) toy_factorizer
                (replicate (Z.to_nat 1000000) (mkRow 0 1 0 0 0)) []) as [_ Hlarge].
    destruct Hlarge as (_ & Hfail & _); [rewrite length_replicate; lia|].
    apply Hfail. unfold only_min_df. by rewrite decide_False.
Defined.

(** ** The further properties at work on small inputs *)

Lemma create_word_list_errors_witness :
  create_word_list (λ _, int64) [] "ip" "app" = None
  ∧ create_word_list (λ _, int64) toy_train "ip" "click_time" = None.
Proof.
  split.
  - apply create_word_list_errors. by left.
  - apply create_word_list_errors. right. right. by apply (bool_decide_unpack _).
Defined.

Lemma create_word_list_wraps_witness :
  ∃ docs,
    create_word_list (λ _, int64) [mkRow (-1) 7 0 0 0; mkRow 1 5 0 0 0] "ip" "app"
    = Some docs
    ∧ docs !! 1%nat = Some "7 5".
Proof.
  destruct (create_word_list_wraps (λ _, int64) [mkRow (-1) 7 0 0 0; mkRow 1 5 0 0 0]
              "ip" "app" [-1; 1] [7; 5] 1) as (docs & Hrun & _ & Hdoc).
  - reflexivity.
  - reflexivity.
  - by apply (bool_decide_unpack _).
  - repeat constructor; lia.
  - simpl. lia.
  - exists docs. split; [exact Hrun|]. apply (Hdoc 1%nat). lia.
Defined.

Lemma create_word_list_index_error_witness :
  create_word_list (λ _, int64) [mkRow (-5) 1 0 0 0; mkRow 1 2 0 0 0] "ip" "app" = None.
Proof.
  apply (create_word_list_index_error (λ _, int64) _ "ip" "app" [-5; 1] 1 (-5)).
  - reflexivity.
  - by apply (bool_decide_unpack _).
  - repeat constructor; lia.
  - by apply (bool_decide_unpack _).
  - lia.
Defined.

Lemma create_word_list_keeps_tokens_witness :
  ∃ lists, ["1 3"; "2"] = join_tokens <$> lists ∧ concat lists ≡ₚ [1; 2; 3].
Proof.
  apply (create_word_list_keeps_tokens (λ _, int64) toy_train "ip" "app" [1; 2; 3]
           ["1 3"; "2"]).
  - reflexivity.
  - vm_compute. reflexivity.
Defined.

Lemma get_feature_broadcast_wraps_witness :
  ∃ frame,
    get_feature 0 "f" 2
      (toy_store [mkRow (-1) 7 0 0 0; mkRow 1 5 0 0 0] []) "train"
      ["ip"] ["app"] [[[1; 1]; [2; 2]]] = Some frame
    ∧ ∀ frow, data frame !! 0%nat = Some frow → Some [2; 2] = Some (take 2 (drop (0 * 2) frow)).
Proof.
  destruct (get_feature_broadcast_wraps 0 "f" 2
              (toy_store [mkRow (-1) 7 0 0 0; mkRow 1 5 0 0 0] []) "train"
              [mkRow (-1) 7 0 0 0; mkRow 1 5 0 0 0] ["ip"] ["app"] [[[1; 1]; [2; 2]]])
    as (frame & Hrun & Hrows).
  - reflexivity.
  - reflexivity.
  - reflexivity.
  - apply check_wrapped_ids_sound. vm_compute. reflexivity.
  - exists frame. split; [exact Hrun|]. intros frow Hfrow.
    apply (Hrows 0%nat 0%nat "ip" [[1; 1]; [2; 2]] [-1; 1] (-1) frow);
      [reflexivity | reflexivity | reflexivity | reflexivity | exact Hfrow].
Defined.

Lemma get_feature_rectangular_witness :
  ∃ frame,
    get_feature 0 "f" 2 (toy_store toy_train toy_test) "train"
      ["ip"; "app"] ["app"; "ip"] [[[1; 1]; [2; 2]]; [[1; 1]; [2; 2]; [3; 3]; [4; 4]]]
    = Some frame
    ∧ length (data frame) = 3%nat
    ∧ length (columns frame) = 4%nat
    ∧ Forall (λ frow, length frow = length (columns frame)) (data frame).
Proof.
  apply (get_feature_rectangular 0 "f" 2 (toy_store toy_train toy_test) "train" toy_train).
  - reflexivity.
  - reflexivity.
  - reflexivity.
  - apply check_wrapped_ids_sound. vm_compute. reflexivity.
Defined.

Lemma get_feature_data_ignores_cs2_witness :
  ∃ frame frame',
    get_feature 0 "f" 2 (toy_store toy_train toy_test) "train"
      ["ip"; "app"] ["app"; "ip"] [[[1; 1]; [2; 2]]; [[1; 1]; [2; 2]; [3; 3]; [4; 4]]]
    = Some frame
    ∧ get_feature 0 "f" 2 (toy_store toy_train toy_test) "train"
      ["ip"; "app"] ["os"; "os"] [[[1; 1]; [2; 2]]; [[1; 1]; [2; 2]; [3; 3]; [4; 4]]]
    = Some frame'
    ∧ data frame = data frame'.
Proof.
  apply (get_feature_data_ignores_cs2 0 "f" 2 (toy_store toy_train toy_test) "train" toy_train).
  - reflexivity.
  - reflexivity.
  - reflexivity.
  - reflexivity.
  - apply check_wrapped_ids_sound. vm_compute. reflexivity.
Defined.

Lemma get_feature_length_mismatch_witness :
  get_feature 0 "f" 2 (toy_store toy_train toy_test) "train"
    ["ip"; "app"] ["app"] [[[1; 1]; [2; 2]]; [[1; 1]; [2; 2]; [3; 3]; [4; 4]]] = None.
Proof.
  apply get_feature_length_mismatch; [left; simpl; lia | lia].
Defined.

Lemma get_feature_index_error_witness :
  get_feature 0 "f" 2 (toy_store toy_train toy_test) "train" ["ip"] ["app"] [[[1; 1]]] = None.
Proof.
  apply (get_feature_index_error 0 "f" 2 (toy_store toy_train toy_test) "train" toy_train
           ["ip"] ["app"] [[[1; 1]]] 0%nat "ip" "app" [[1; 1]] [0; 1; 0] 1).
  - reflexivity.
  - reflexivity.
  - reflexivity.
  - reflexivity.
  - reflexivity.
  - by apply (bool_decide_unpack _).
  - right. simpl. lia.
Defined.

Lemma get_feature_key_error_witness :
  get_feature 0 "f" 2 (toy_store toy_train toy_test) "train"
    ["click_time"] ["app"] [[[1; 1]]] = None.
Proof.
  apply (get_feature_key_error 0 "f" 2 (toy_store toy_train toy_test) "train" toy_train
           ["click_time"] ["app"] [[[1; 1]]] 0%nat "click_time" "app" [[1; 1]]).
  - reflexivity.
  - reflexivity.
  - reflexivity.
  - reflexivity.
  - by apply (bool_decide_unpack _).
Defined.


Lemma UserItemLDA_shape_witness :
  ∃ train test,
    UserItemLDA (@id Z) 0 "f" toy_count_vectorizer toy_factorizer toy_key_train toy_key_test
    = Some (train, test)
    ∧ Forall (λ frow, length frow = 30%nat) (data train ++ data test)
    ∧ columns train = columns test
    ∧ columns train !! 7%nat = Some "f_7".
Proof.
  destruct (UserItemLDA_shape (@id Z) 0 "f" toy_count_vectorizer toy_factorizer
              toy_key_train toy_key_test ["1 2 3"; "1 1 1"]
              [replicate 30 1; replicate 30 2])
    as (train & test & Hrun & Hrows & Hcols & _ & Hnames).
  - vm_compute; reflexivity.
  - vm_compute; reflexivity.
  - vm_compute; reflexivity.
  - repeat constructor.
  - exists train, test. split; [exact Hrun|]. split; [exact Hrows|]. split; [exact Hcols|].
    apply (Hnames 7%nat). unfold n_components. lia.
Defined.

Lemma UserItemLDA_nothing_survives_witness :
  build_keys ([mkRow 1 1 0 0 0; mkRow 2 2 0 0 0] ++ [mkRow 1 3 0 0 0]) = Some ([], [])
  ∧ UserItemLDA (@id Z) 0 "f" toy_count_vectorizer toy_factorizer
      [mkRow 1 1 0 0 0; mkRow 2 2 0 0 0] [mkRow 1 3 0 0 0]
    = Some (mkFrame (replicate 2 (replicate n_components 0)) (feature_columns "f" n_components),
            mkFrame (replicate 1 (replicate n_components 0)) (feature_columns "f" n_components)).
Proof.
  destruct (UserItemLDA_nothing_survives (@id Z) 0 "f" toy_count_vectorizer toy_factorizer
              [mkRow 1 1 0 0 0; mkRow 2 2 0 0 0] [mkRow 1 3 0 0 0]) as [Hkeys Hrun].
  - intros row Hrow.
    repeat (apply elem_of_cons in Hrow as [-> | Hrow]); [vm_compute; lia.. |].
    by apply elem_of_nil in Hrow.
  - split; [exact Hkeys|]. apply (Hrun [] []); reflexivity.
Defined.

Lemma Single_split_lossless_witness :
  ∃ train test,
    SinglePCACount (@id Z) "f" toy_svd toy_train toy_test = Some (train, test)
    ∧ data train ++ data test = replicate 4 (replicate 30 4)
    ∧ length (data train) = 3%nat ∧ length (data test) = 1%nat.
Proof.
  destruct (Single_split_lossless (@id Z) "f" toy_svd toy_svd) as [Hcount _].
  destruct (Hcount toy_train toy_test (replicate 4 (replicate 30 4)))
    as (train & test & Hrun & Hdata & _ & Hlen).
  - vm_compute; reflexivity.
  - destruct (Hlen eq_refl) as [Hl1 Hl2].
    exists train, test. split; [exact Hrun|]. split; [|split; [exact Hl1 | exact Hl2]].
    rewrite Hdata. vm_compute. reflexivity.
Defined.
